(** * DeepspeedStrategy (openrlhf/utils/deepspeed.py): a shallow embedding

    The strategy object coordinates one training process of a group:
    it prepares models for the engine, reduces and gathers metrics,
    keeps an exponential moving average of the parameters and saves
    checkpoints under a retention policy.  Each method that the
    properties below talk about is transcribed here as a function;
    calls into torch, torch.distributed, deepspeed and the file system
    are modelled by what they return and by the events they leave in a
    trace. *)

From Stdlib Require Import ZArith List Lia Ascii String.
From Stdlib Require Import Floats.SpecFloat.
From stdpp Require Import base list strings gmap pretty.

Set Warnings "-register-all".
Local Open Scope Z_scope.

(** ** Exceptions and results *)

Inductive exn :=
| IndexError
| ZeroDivisionError
| OverflowError
| IsADirectoryError
| RuntimeError
| AssertionError (msg : string).

Inductive result (A : Type) :=
| Ok (a : A)
| Raise (e : exn).
Arguments Ok {A} a.
Arguments Raise {A} e.

(** Methods that change the strategy object or talk to the process
    group are functions from a state to an outcome and the state left
    behind; an exception keeps the state reached when it was raised. *)
Definition M (S A : Type) : Type := S -> result A * S.

Definition mret {S A} (a : A) : M S A := fun s => (Ok a, s).
Definition raise {S A} (e : exn) : M S A := fun s => (Raise e, s).
Definition mbind {S A B} (c : M S A) (k : A -> M S B) : M S B :=
  fun s => match c s with
           | (Ok a, s') => k a s'
           | (Raise e, s') => (Raise e, s')
           end.
Definition get {S} : M S S := fun s => (Ok s, s).
Definition modify {S} (f : S -> S) : M S unit := fun s => (Ok tt, f s).

Declare Scope py_scope.
Delimit Scope py_scope with py.
Notation "x <~ c ;; k" := (mbind c (fun x => k))
  (at level 100, c at next level, right associativity) : py_scope.
Notation "c ;;; k" := (mbind c (fun _ => k))
  (at level 100, right associativity) : py_scope.

(** ** The strategy object *)

(** The attributes of [self] that the methods below read or write.
    [pretrain_data] and [local_rank] are those of [self.args];
    [time_steps] is the [defaultdict(int)]; [world_size] and
    [accumulated_gradient] are set by [setup_distributed]. *)
Record strategy := {
  seed : Z;
  max_norm : spec_float;
  micro_train_batch_size : Z;
  train_batch_size : Z;
  stage : Z;
  max_out_tokens : Z;
  inference_tp_size : Z;
  bf16 : bool;
  adam_offload : bool;
  is_rlhf : bool;
  zpg : Z;
  pretrain_data : option string;
  local_rank : Z;
  time_steps : gmap string Z;
  world_size : Z;
  accumulated_gradient : Z
}.

Definition set_is_rlhf (b : bool) (self : strategy) : strategy :=
  {| seed := seed self; max_norm := max_norm self;
     micro_train_batch_size := micro_train_batch_size self;
     train_batch_size := train_batch_size self; stage := stage self;
     max_out_tokens := max_out_tokens self;
     inference_tp_size := inference_tp_size self; bf16 := bf16 self;
     adam_offload := adam_offload self; is_rlhf := b; zpg := zpg self;
     pretrain_data := pretrain_data self; local_rank := local_rank self;
     time_steps := time_steps self; world_size := world_size self;
     accumulated_gradient := accumulated_gradient self |}.

Definition set_time_steps (ts : gmap string Z) (self : strategy) : strategy :=
  {| seed := seed self; max_norm := max_norm self;
     micro_train_batch_size := micro_train_batch_size self;
     train_batch_size := train_batch_size self; stage := stage self;
     max_out_tokens := max_out_tokens self;
     inference_tp_size := inference_tp_size self; bf16 := bf16 self;
     adam_offload := adam_offload self; is_rlhf := is_rlhf self; zpg := zpg self;
     pretrain_data := pretrain_data self; local_rank := local_rank self;
     time_steps := ts; world_size := world_size self;
     accumulated_gradient := accumulated_gradient self |}.

(** [a // b] and [a % b] on Python ints: floor division and the
    remainder with the sign of [b], as [Z.div] and [Z.modulo] are;
    ZeroDivisionError when [b] is 0. *)
Definition floordiv (a b : Z) : result Z :=
  if b =? 0 then Raise ZeroDivisionError else Ok (a / b).

Definition pymod (a b : Z) : result Z :=
  if b =? 0 then Raise ZeroDivisionError else Ok (a mod b).

(** [setup_distributed]: the part that fills in [world_size] (what
    [dist.get_world_size()] returned) and [accumulated_gradient]. *)
Definition setup_distributed (get_world_size : Z) (self : strategy) : result strategy :=
  match floordiv (train_batch_size self) (micro_train_batch_size self) with
  | Raise e => Raise e
  | Ok q =>
      match floordiv q get_world_size with
      | Raise e => Raise e
      | Ok acc =>
          Ok {| seed := seed self; max_norm := max_norm self;
                micro_train_batch_size := micro_train_batch_size self;
                train_batch_size := train_batch_size self; stage := stage self;
                max_out_tokens := max_out_tokens self;
                inference_tp_size := inference_tp_size self; bf16 := bf16 self;
                adam_offload := adam_offload self; is_rlhf := is_rlhf self;
                zpg := zpg self; pretrain_data := pretrain_data self;
                local_rank := local_rank self; time_steps := time_steps self;
                world_size := get_world_size; accumulated_gradient := acc |}
      end
  end.

(** ** save_ckpt: the retention sweep and the save *)

Module Ckpt.

(** What [save_dir] holds.  A file has a size ([os.path.getsize]); a
    directory has a modification time ([os.path.getmtime], a number of
    seconds, here an integer count of clock ticks) and its own entries.
    A listing gives the entries in the order [os.listdir] returns them,
    the names being distinct. *)
Inductive node :=
| File (getsize : N)
| Folder (getmtime : Z) (entries : list (string * node)).

Abbreviation listing := (list (string * node)).

(** [for dirpath, dirnames, filenames in os.walk(subdir): for f in
    filenames: total_size += os.path.getsize(fp)], for one [subdir]. *)
Fixpoint walk_size (n : node) : Z :=
  match n with
  | File sz => Z.of_N sz
  | Folder _ es =>
      (fix files (l : listing) : Z :=
         match l with
         | [] => 0
         | (_, c) :: r => walk_size c + files r
         end) es
  end.

(** The list comprehension of [save_ckpt]: every entry that
    [os.path.isdir] accepts, with its modification time.  A subdirectory is named by
    its entry name, [os.path.join(save_dir, d)] being one-to-one in [d]. *)
Definition subdirs (save_dir : listing) : list (string * Z) :=
  omap (fun e => match e.2 with
                 | Folder mt _ => Some (e.1, mt)
                 | File _ => None
                 end) save_dir.

(** [subdirs.sort(key=lambda x: x[1])]: Python's sort is stable, so among
    equal times the listing order is kept. *)
Fixpoint insert_by_mtime (x : string * Z) (l : list (string * Z)) : list (string * Z) :=
  match l with
  | [] => [x]
  | y :: r => if x.2 <=? y.2 then x :: y :: r else y :: insert_by_mtime x r
  end.

Definition sort_by_mtime (l : list (string * Z)) : list (string * Z) :=
  foldr insert_by_mtime [] l.

Fixpoint find_entry (p : string) (save_dir : listing) : option node :=
  match save_dir with
  | [] => None
  | (d, n) :: r => if String.eqb d p then Some n else find_entry p r
  end.

(** [os.path.exists] *)
Definition path_exists (p : string) (save_dir : listing) : bool :=
  match find_entry p save_dir with Some _ => true | None => false end.

(** The accumulation of [total_size] over the sorted [subdirs]. *)
Definition total_size (save_dir : listing) (sd : list (string * Z)) : Z :=
  foldl (fun acc e => acc + match find_entry e.1 save_dir with
                            | Some n => walk_size n
                            | None => 0
                            end) 0 sd.

(** [shutil.rmtree] *)
Definition rmtree (p : string) (save_dir : listing) : listing :=
  filter (fun e => e.1 ≠ p) save_dir.

(** [MAX_SIZE = max_mem * 1024 * 1024 * 1024] *)
Definition MAX_SIZE (max_mem : Z) : Z := max_mem * 1024 * 1024 * 1024.

(** The [while True] loop.  Each round lists, sorts and sizes the
    subdirectories again; it deletes the first of the sorted list while
    there are [max_num] of them or more, or while they hold more than
    [MAX_SIZE] bytes.  [subdirs[0]] on an empty list raises IndexError.
    The second component of the state is what [self.print] has written:
    the deleted directories in order.  [None] stands for a loop that has
    not stopped within [fuel] rounds. *)
Fixpoint sweep (fuel : nat) (max_num max_size : Z) (save_dir : listing)
    (printed : list string) : option (result (listing * list string)) :=
  match fuel with
  | O => None
  | S fuel' =>
      let sd := sort_by_mtime (subdirs save_dir) in
      let total := total_size save_dir sd in
      if (Z.of_nat (length sd) >=? max_num) || (total >? max_size) then
        match sd with
        | [] => Some (Raise IndexError)
        | (oldest_dir, _) :: _ =>
            if path_exists oldest_dir save_dir
            then sweep fuel' max_num max_size (rmtree oldest_dir save_dir)
                       (printed ++ [oldest_dir])
            else sweep fuel' max_num max_size save_dir printed
        end
      else Some (Ok (save_dir, printed))
  end.

(** The model handed to [save_ckpt].  An engine brings its own
    [save_checkpoint]: what it does to [save_dir] for a tag is the
    engine's business, so it is a field.  Any other model is saved with
    [torch.save] as one file of some size. *)
Inductive model :=
| DeepSpeedEngine (save_checkpoint : string -> listing -> listing)
| TorchModule (state_dict_bytes : N).

(** [torch.save(obj, path)]: creates or replaces the file at [path]. *)
Definition torch_save (p : string) (bytes : N) (save_dir : listing) : result listing :=
  match find_entry p save_dir with
  | Some (Folder _ _) => Raise IsADirectoryError
  | Some (File _) =>
      Ok ((fun e : string * node => if String.eqb e.1 p then (e.1, File bytes) else e) <$> save_dir)
  | None => Ok (save_dir ++ [(p, File bytes)])
  end.

(** [save_ckpt(model, save_dir, tag, max_num, max_mem)].  A [save_dir]
    that does not exist yet is created empty, so it is the empty
    listing.  Only rank 0 sweeps; every rank then saves. *)
Definition save_ckpt (fuel : nat) (is_rank_0 : bool) (m : model) (save_dir : listing)
    (tag : string) (max_num max_mem : Z) : option (result (listing * list string)) :=
  swept ← (if is_rank_0
           then sweep fuel max_num (MAX_SIZE max_mem) save_dir []
           else Some (Ok (save_dir, [])));
  match swept with
  | Raise e => Some (Raise e)
  | Ok (kept, printed) =>
      match m with
      | DeepSpeedEngine save_checkpoint => Some (Ok (save_checkpoint tag kept, printed))
      | TorchModule bytes =>
          match torch_save (tag +:+ ".pt") bytes kept with
          | Ok written => Some (Ok (written, printed))
          | Raise e => Some (Raise e)
          end
      end
  end.

(** Number and cumulative size of the checkpoint subdirectories. *)
Definition count (save_dir : listing) : Z := Z.of_nat (length (subdirs save_dir)).
Definition bytes (save_dir : listing) : Z :=
  total_size save_dir (sort_by_mtime (subdirs save_dir)).

(** Replaying the printed deletions from the starting listing: each
    deleted directory was, when it was deleted, a subdirectory whose
    modification time no other subdirectory undercut. *)
Fixpoint oldest_first (save_dir : listing) (printed : list string) : Prop :=
  match printed with
  | [] => True
  | p :: rest =>
      (exists mt, (p, mt) ∈ subdirs save_dir /\
                  forall q mt', (q, mt') ∈ subdirs save_dir -> mt <= mt')
      /\ oldest_first (rmtree p save_dir) rest
  end.

(** A list whose first element is no younger than any other. *)
Definition head_oldest (l : list (string * Z)) : Prop :=
  match l with
  | [] => True
  | x :: _ => forall y, y ∈ l -> x.2 <= y.2
  end.

Definition GB : N := 1024 * 1024 * 1024.

(** A checkpoint directory holding one file of [gb] gigabytes. *)
Definition ckpt (name : string) (mtime : Z) (gb : N) : string * node :=
  (name, Folder mtime [("mp_rank_00_model_states.pt"%string, File (gb * GB))]).

End Ckpt.

(** ** torch: scalars and float32 buffers *)

Module Torch.

(** A Python number: an [int] of any size or a [float], which is an
    IEEE 754 binary64.  [torch.Tensor] is the float32 tensor type, its
    elements are IEEE 754 binary32.  Both kinds of float are
    [spec_float]s, read at precision 53 or 24. *)
Inductive pyscalar :=
| PyInt (z : Z)
| PyFloat (x : spec_float).

Definition valid32 (x : spec_float) : bool := valid_binary 24 128 x.

(** [float(z)]: the nearest binary64, ties to even; OverflowError when
    [z] is beyond the range of a float. *)
Definition float_of_int (z : Z) : result spec_float :=
  match binary_normalize 53 1024 z 0 false with
  | S754_infinity _ => Raise OverflowError
  | x => Ok x
  end.

(** Narrowing a binary64 to a binary32 (the nearest one, ties to even)
    and widening a binary32 to a binary64 (exact). *)
Definition to_float32 (x : spec_float) : spec_float :=
  match x with
  | S754_finite s m e => binary_round 24 128 s m e
  | _ => x
  end.

Definition to_float64 (x : spec_float) : spec_float :=
  match x with
  | S754_finite s m e => binary_round 53 1024 s m e
  | _ => x
  end.

Inductive device := cpu | cuda.

(** [d.type == "cpu"] *)
Definition is_cpu (d : device) : bool :=
  match d with cpu => true | cuda => false end.

(** A tensor: where it lives and its elements.  Tensors are float32
    buffers of one dimension, which is what [torch.Tensor([data])]
    builds and what [torch.cat] joins along axis 0. *)
Record tensor := { device_type : device; elems : list spec_float }.

(** [torch.Tensor([data])]: a CPU float32 tensor of one element.  A
    Python int goes through [float] first. *)
Definition Tensor1 (data : pyscalar) : result tensor :=
  match data with
  | PyFloat x => Ok {| device_type := cpu; elems := [to_float32 x] |}
  | PyInt z =>
      match float_of_int z with
      | Ok x => Ok {| device_type := cpu; elems := [to_float32 x] |}
      | Raise e => Raise e
      end
  end.

(** [t.to(device)] and [t.cpu()] *)
Definition to (d : device) (t : tensor) : tensor :=
  {| device_type := d; elems := elems t |}.

(** [t /= n] for a Python int [n]: every element divided, in float32,
    by [n] as a float32. *)
Definition div_scalar (t : tensor) (n : Z) : tensor :=
  {| device_type := device_type t;
     elems := (fun x => SFdiv 24 128 x (binary_normalize 24 128 n 0 false)) <$> elems t |}.

(** [t.item()] of a tensor of one element: a Python float. *)
Definition item (t : tensor) : result pyscalar :=
  match elems t with
  | [x] => Ok (PyFloat (to_float64 x))
  | _ => Raise RuntimeError
  end.

(** [torch.cat(ts)] of tensors on one device. *)
Definition cat (d : device) (ts : list tensor) : tensor :=
  {| device_type := d; elems := concat (elems <$> ts) |}.

(** The arithmetic of [moving_average] on float32 data: [1 - beta] on
    Python floats, a Python float times a tensor, and the sum of two
    tensors. *)
Definition one_minus (beta : spec_float) : spec_float :=
  SFsub 53 1024 (SFone 53 1024) beta.

Definition mul_scalar (c : spec_float) (t : list spec_float) : list spec_float :=
  SFmul 24 128 (to_float32 c) <$> t.

Definition add_tensors (t u : list spec_float) : list spec_float :=
  zip_with (SFadd 24 128) t u.

(** Some floats, as binary64: 0.1 and what float32 makes of it. *)
Definition f64_0_1 : spec_float := S754_finite false 7205759403792794 (-56).
Definition f64_0_1_as_f32 : spec_float := S754_finite false 7205759511166976 (-56).

End Torch.

(** ** all_reduce and all_gather *)

Module Reduce.
Import Torch.

(** What [all_reduce] and [all_gather] take and return: a number, a
    tensor, or a dict from strings to such data.  A dict keeps its items
    in insertion order and has no key twice. *)
Inductive value :=
| Scalar (x : pyscalar)
| Tensor (t : tensor)
| Dict (items : list (string * value)).

(** [ret[k] = v] *)
Fixpoint dict_set (k : string) (v : value) (d : list (string * value)) : list (string * value) :=
  match d with
  | [] => [(k, v)]
  | (k', v') :: r => if String.eqb k' k then (k, v) :: r else (k', v') :: dict_set k v r
  end.

Definition keys (d : list (string * value)) : list string := fst <$> d.

(** The process group as one process sees it: how many processes there
    are ([dist.get_world_size()], which the methods read as
    [self.world_size]), which one this is, and what the others send.
    [peer n r i] is element [i] of the buffer that rank [r] hands to the
    [n]-th collective call (for a mean, a buffer that rank [r] has
    divided already).  A collective works in place on a buffer of the
    caller's shape, so only the caller's indices are ever read. *)
Record process_group := {
  world_size : nat;
  get_rank : nat;
  peer : nat -> nat -> nat -> spec_float
}.

Inductive ReduceOp := MAX | SUM.

Definition f32_max (x y : spec_float) : spec_float :=
  if SFltb x y then y else x.

Definition combine (o : ReduceOp) : spec_float -> spec_float -> spec_float :=
  match o with MAX => f32_max | SUM => SFadd 24 128 end.

(** Element [i] as every rank contributes it to call [n], in rank order. *)
Definition contributions (g : process_group) (n i : nat) (own : spec_float) : list spec_float :=
  (fun r => if Nat.eqb r (get_rank g) then own else peer g n r i) <$> seq 0 (world_size g).

(** [dist.all_reduce(data, op)], the [n]-th collective call: every
    element becomes the combination of the contributions, taken in rank
    order. *)
Definition dist_all_reduce (g : process_group) (o : ReduceOp) (n : nat) (data : tensor) : tensor :=
  {| device_type := device_type data;
     elems := imap (fun i x => match contributions g n i x with
                               | [] => x
                               | c :: cs => foldl (combine o) c cs
                               end) (elems data) |}.

(** [dist.all_gather(ret, data)], the [n]-th collective call: [ret[r]]
    receives the buffer of rank [r]. *)
Definition dist_all_gather (g : process_group) (n : nat) (data : tensor) : list tensor :=
  (fun r => {| device_type := device_type data;
               elems := imap (fun i x => if Nat.eqb r (get_rank g) then x else peer g n r i)
                             (elems data) |}) <$> seq 0 (world_size g).

(** The state threaded through both methods: the number of collective
    calls this process has made. *)
Definition collective {A} (f : nat -> A) : M nat A := fun n => (Ok (f n), S n).

(** [for k, v in data.items(): ret[k] = f(v)] *)
Definition dict_for (f : value -> M nat value) :=
  fix loop (items ret : list (string * value)) {struct items} : M nat (list (string * value)) :=
    match items with
    | [] => mret ret
    | (k, v) :: rest => (r <~ f v ;; loop rest (dict_set k r ret))%py
    end.

Definition valid_op (op : string) : bool :=
  bool_decide (op ∈ ["mean"; "max"; "sum"]%string).

(** The leaf branch of [all_reduce] from [is_cpu_tensor] on, for the
    buffer handed to the [n]-th collective call: to the accelerator if
    it lives on the CPU, divided by [world_size] for a mean, reduced in
    place, and back where it lived. *)
Definition reduce_buffer (g : process_group) (op : string) (n : nat) (data : tensor) : tensor :=
  let is_cpu_tensor := is_cpu (device_type data) in
  let data := if is_cpu_tensor then to cuda data else data in
  let data := if String.eqb op "mean" then div_scalar data (Z.of_nat (world_size g)) else data in
  let data := dist_all_reduce g (if String.eqb op "max" then MAX else SUM) n data in
  if is_cpu_tensor then to cpu data else data.

(** [all_reduce(data, op)].  A number is promoted to a tensor of one
    element and, once reduced, demoted with [item()]. *)
Fixpoint all_reduce (g : process_group) (op : string) (data : value) {struct data} : M nat value :=
  if negb (valid_op op) then raise (AssertionError "") else
  match data with
  | Dict items => (ret <~ dict_for (all_reduce g op) items [] ;; mret (Dict ret))%py
  | Tensor data =>
      (data <~ collective (fun n => reduce_buffer g op n data) ;; mret (Tensor data))%py
  | Scalar data =>
      match Tensor1 data with
      | Raise e => raise e
      | Ok data =>
          (data <~ collective (fun n => reduce_buffer g op n data) ;;
           match item data with
           | Ok x => mret (Scalar x)
           | Raise e => raise e
           end)%py
      end
  end.

(** The leaf branch of [all_gather]: one buffer for each rank, filled
    by the [n]-th collective call and joined; the result lives where
    [data] lived. *)
Definition gather_buffer (g : process_group) (n : nat) (data : tensor) : tensor :=
  let is_cpu_tensor := is_cpu (device_type data) in
  let ret := dist_all_gather g n (to cuda data) in
  if is_cpu_tensor then to cpu (cat cuda ret) else cat cuda ret.

(** [all_gather(data)].  A number is promoted to a tensor of one
    element; what is gathered stays a tensor. *)
Fixpoint all_gather (g : process_group) (data : value) {struct data} : M nat value :=
  match data with
  | Dict items => (ret <~ dict_for (all_gather g) items [] ;; mret (Dict ret))%py
  | Tensor data =>
      (data <~ collective (fun n => gather_buffer g n data) ;; mret (Tensor data))%py
  | Scalar data =>
      match Tensor1 data with
      | Raise e => raise e
      | Ok data =>
          (data <~ collective (fun n => gather_buffer g n data) ;; mret (Tensor data))%py
      end
  end.

(** The number of leaves of the data: one collective call is made for
    each. *)
Fixpoint leaves (data : value) : nat :=
  match data with
  | Dict items =>
      (fix count (l : list (string * value)) : nat :=
         match l with
         | [] => O
         | (_, v) :: r => (leaves v + count r)%nat
         end) items
  | _ => 1%nat
  end.

(** Data as Python has it: no dict holds a key twice; and every number
    satisfies [P], every tensor [Q]. *)
Fixpoint data_with (P : pyscalar -> Prop) (Q : tensor -> Prop) (data : value) : Prop :=
  match data with
  | Scalar x => P x
  | Tensor t => Q t
  | Dict items =>
      NoDup (keys items) /\
      (fix all (l : list (string * value)) : Prop :=
         match l with
         | [] => True
         | (_, v) :: r => data_with P Q v /\ all r
         end) items
  end.

(** The same data with every leaf replaced. *)
Fixpoint map_leaves (f : pyscalar -> value) (h : tensor -> value) (data : value) : value :=
  match data with
  | Scalar x => f x
  | Tensor t => h t
  | Dict items => Dict ((fun kv => (kv.1, map_leaves f h kv.2)) <$> items)
  end.

(** A number that [torch.Tensor([x])] accepts, and the float32 it
    becomes. *)
Definition converts (x : pyscalar) : Prop := exists t, Tensor1 x = Ok t.

Definition as_float32 (x : pyscalar) : spec_float :=
  match x with
  | PyFloat f => to_float32 f
  | PyInt z => to_float32 (binary_normalize 53 1024 z 0 false)
  end.

(** The float32 of a rank. *)
Definition f32_of_rank (i : nat) : spec_float := as_float32 (PyInt (Z.of_nat i)).

(** A tensor whose elements are well-formed float32 values. *)
Definition valid_tensor (t : tensor) : Prop := Forall (fun x => valid32 x = true) (elems t).

(** What a number comes back as from a group of one process:
    the Python float of its float32; and what it is gathered as. *)
Definition demoted (x : pyscalar) : value := Scalar (PyFloat (to_float64 (as_float32 x))).
Definition promoted (x : pyscalar) : value :=
  Tensor {| device_type := cpu; elems := [as_float32 x] |}.

End Reduce.

(** ** prepare *)

Module Prepare.

(** A value of a DeepSpeed configuration dict. *)
Inductive cfg_value :=
| CInt (z : Z)
| CBool (b : bool)
| CFloat (x : spec_float)
| CStr (s : string)
| CDict (d : list (string * cfg_value)).

Abbreviation ds_config := (gmap string cfg_value).

(** The objects that go into and come out of [prepare].  An [Actor]
    holds its network in [model]; [Obj] is anything else that is not a
    tuple (a module, an optimizer, a scheduler); [is_ema] is the
    attribute that [getattr(model, "is_ema", None)] looks for.  The
    three things [deepspeed.initialize] hands back are named by the
    number of the call that made them. *)
Inductive obj :=
| Actor (is_ema : bool) (model : obj)
| Obj (name : string) (is_ema : bool)
| Tuple (items : list obj)
| List (items : list obj)
| Engine (call : nat)
| EngineOptimizer (call : nat)
| EngineScheduler (call : nat).

Definition is_Actor (o : obj) : bool :=
  match o with Actor _ _ => true | _ => false end.

Definition getattr_is_ema (o : obj) : bool :=
  match o with
  | Actor b _ | Obj _ b => b
  | _ => false
  end.

(** [model.model if is_actor else model] *)
Definition inner (o : obj) : obj :=
  match o with Actor _ m => m | _ => o end.

(** [model.model = engine] on an Actor, [model = engine] otherwise. *)
Definition wrap (o engine : obj) : obj :=
  match o with Actor b _ => Actor b engine | _ => engine end.

(** The keyword arguments of [get_train_ds_config] and
    [get_eval_ds_config]. *)
Record train_args := {
  t_offload : bool; t_adam_offload : bool; t_stage : Z; t_bf16 : bool;
  t_max_norm : spec_float; t_enable_hybrid_engine : bool;
  t_pin_parameters : bool; t_inference_tp_size : Z;
  t_tp_gather_partition_size : Z; t_max_out_tokens : Z; t_zpg : Z
}.

Record eval_args := {
  e_offload : bool; e_stage : Z; e_bf16 : bool;
  e_enable_hybrid_engine : bool; e_inference_tp_size : Z;
  e_tp_gather_partition_size : Z; e_max_out_tokens : Z
}.

(** One call of [deepspeed.initialize]. *)
Record initialize_call := {
  init_model : obj;
  init_optimizer : option obj;
  init_lr_scheduler : option obj;
  init_config : ds_config;
  init_local_rank : Z
}.

(** [prepare] changes [self] and calls the engine: its state is the
    strategy and the calls of [deepspeed.initialize] made so far. *)
Abbreviation state := (strategy * list initialize_call)%type.

Definition dquote : string := String "034"%char EmptyString.

(** The message of the assertion on a tuple of the wrong size. *)
Definition size_message (n : nat) : string :=
  "Expect (model, optimizer, scheduler) pair, got a tuple with size "
  +:+ dquote +:+ pretty n +:+ dquote.

Section Configs.

(** [get_train_ds_config] and [get_eval_ds_config] of
    [deepspeed_utils] build the configuration dict from their keyword
    arguments; they are parameters here. *)
Variable get_train_ds_config : train_args -> ds_config.
Variable get_eval_ds_config : eval_args -> ds_config.

(** [deepspeed.initialize(...)]: the call is recorded, and the engine,
    optimizer and scheduler it returns carry its number. *)
Definition initialize (c : initialize_call) : M state nat :=
  fun st => (Ok (length st.2), (st.1, st.2 ++ [c])).

Definition ds_init_train_model (model optim scheduler : obj) : M state obj :=
  (st <~ get ;;
   let self := st.1 in
   let is_actor := is_Actor model in
   let stage := stage self in
   let ds_config := get_train_ds_config
     {| t_offload := false; t_adam_offload := adam_offload self; t_stage := stage;
        t_bf16 := bf16 self; t_max_norm := max_norm self;
        t_enable_hybrid_engine := is_actor && (inference_tp_size self >? 1) && (stage =? 3);
        t_pin_parameters := true; t_inference_tp_size := inference_tp_size self;
        t_tp_gather_partition_size := 4; t_max_out_tokens := max_out_tokens self;
        t_zpg := zpg self |} in
   let ds_config := <["train_micro_batch_size_per_gpu"%string := CInt (micro_train_batch_size self)]> ds_config in
   let train_batch_size := train_batch_size self in
   let train_batch_size :=
     if is_rlhf self && is_actor && bool_decide (pretrain_data self ≠ None)
     then train_batch_size * 2 else train_batch_size in
   let ds_config := <["train_batch_size"%string := CInt train_batch_size]> ds_config in
   n <~ initialize {| init_model := inner model; init_optimizer := Some optim;
                      init_lr_scheduler := Some scheduler; init_config := ds_config;
                      init_local_rank := local_rank self |} ;;
   mret (Tuple [wrap model (Engine n); EngineOptimizer n; EngineScheduler n]))%py.

Definition ds_init_eval_model (model : obj) : M state obj :=
  (st <~ get ;;
   let self := st.1 in
   let is_actor := is_Actor model in
   let stage := stage self in
   let offload := false in
   let stage := if negb (stage =? 3) then 0 else stage in
   let '(offload, stage) := if getattr_is_ema model then (true, 0) else (offload, stage) in
   let ds_config := get_eval_ds_config
     {| e_offload := offload; e_stage := stage; e_bf16 := bf16 self;
        e_enable_hybrid_engine := is_actor && (inference_tp_size self >? 1) && (stage =? 3);
        e_inference_tp_size := inference_tp_size self;
        e_tp_gather_partition_size := inference_tp_size self;
        e_max_out_tokens := max_out_tokens self |} in
   let ds_config := <["train_micro_batch_size_per_gpu"%string := CInt (micro_train_batch_size self)]> ds_config in
   let ds_config := <["train_batch_size"%string := CInt (train_batch_size self)]> ds_config in
   n <~ initialize {| init_model := inner model; init_optimizer := None;
                      init_lr_scheduler := None; init_config := ds_config;
                      init_local_rank := local_rank self |} ;;
   mret (wrap model (Engine n)))%py.

(** The [for arg in models_or_model_optim_pairs] loop. *)
Fixpoint prepare_loop (args ret : list obj) : M state (list obj) :=
  match args with
  | [] => mret ret
  | arg :: rest =>
      match arg with
      | Tuple items =>
          match items with
          | [model; optim; scheduler] =>
              (r <~ ds_init_train_model model optim scheduler ;;
               prepare_loop rest (ret ++ [r]))%py
          | _ => raise (AssertionError (size_message (length items)))
          end
      | _ =>
          (r <~ ds_init_eval_model arg ;;
           prepare_loop rest (ret ++ [r]))%py
      end
  end.

Definition prepare (args : list obj) (is_rlhf : bool) : M state obj :=
  (modify (fun st : state => (set_is_rlhf is_rlhf st.1, st.2)) ;;;
   ret <~ prepare_loop args [] ;;
   mret (match ret with [r] => r | _ => List ret end))%py.

End Configs.

(** The aggregate batch size that [ds_init_train_model] computes. *)
Definition handed_batch_size (self : strategy) (model : obj) : Z :=
  if is_rlhf self && is_Actor model && bool_decide (pretrain_data self ≠ None)
  then train_batch_size self * 2 else train_batch_size self.

(** An entry that passes the check of the loop: anything but a tuple of
    a size other than 3. *)
Definition well_formed (arg : obj) : Prop :=
  match arg with
  | Tuple items => length items = 3%nat
  | _ => True
  end.

End Prepare.

(** ** Parameters under ZeRO stage 3 *)

Module Zero.

(** A parameter as the methods below see it: whether it takes
    gradients, whether its full data is present on this process, and
    the data that a read finds inside a gathered scope.  [T] is the
    type of tensor data. *)
Record parameter (T : Type) := {
  requires_grad : bool;
  materialized : bool;
  data : T
}.
Arguments requires_grad {T} p.
Arguments materialized {T} p.
Arguments data {T} p.

(** Modelled from the spec: [_z3_params_to_fetch] of [deepspeed_utils]
    is not among the sources; it keeps, of the parameters it is given,
    those that are not yet materialized on the current process. *)
Definition _z3_params_to_fetch {T} (param_list : list (parameter T)) : list (parameter T) :=
  filter (fun p => materialized p = false) param_list.

(** What a method does that other processes or the disk can see: it
    enters a [deepspeed.zero.GatheredParameters] scope, or it writes a
    state dict with [torch.save]. *)
Inductive event (T : Type) :=
| GatheredParameters (params : list (parameter T)) (enabled : bool)
| TorchSave (path : string) (state_dict : gmap string T).
Arguments GatheredParameters {T} params enabled.
Arguments TorchSave {T} path state_dict.

Definition is_gather {T} (e : event T) : bool :=
  match e with GatheredParameters _ _ => true | TorchSave _ _ => false end.

Definition is_save {T} (e : event T) : bool :=
  match e with TorchSave _ _ => true | GatheredParameters _ _ => false end.

End Zero.

(** ** save_model *)

Module SaveModel.
Import Zero.

Section Model.
Context {T : Type}.

(** A model: an [Actor] around its network, an engine (anything that
    has a [module] attribute), a [PeftModel] with what
    [merge_and_unload()] returns, or a plain network with its named
    parameters and buffers. *)
Inductive nn :=
| Actor (model : nn)
| Engine (module : nn)
| PeftModel (merge_and_unload : nn)
| Net (parameters : list (string * parameter T)) (buffers : list (string * T)).

Fixpoint _unwrap_model (model : nn) : nn :=
  match model with
  | Actor m => _unwrap_model m
  | Engine m => m
  | _ => model
  end.

Definition prefixed {A} (p : string) (l : list (string * A)) : list (string * A) :=
  (fun kv => (p +:+ kv.1, kv.2)) <$> l.

(** [named_parameters()] and [named_buffers()]: those of a wrapper are
    the ones of what it wraps, under the attribute's name. *)
Fixpoint named_parameters (model : nn) : list (string * parameter T) :=
  match model with
  | Actor m => prefixed "model." (named_parameters m)
  | Engine m => prefixed "module." (named_parameters m)
  | PeftModel m => prefixed "base_model.model." (named_parameters m)
  | Net ps _ => ps
  end.

Fixpoint named_buffers (model : nn) : list (string * T) :=
  match model with
  | Actor m => prefixed "model." (named_buffers m)
  | Engine m => prefixed "module." (named_buffers m)
  | PeftModel m => prefixed "base_model.model." (named_buffers m)
  | Net _ bs => bs
  end.

(** [d[k] = v] for every pair, in order. *)
Definition update_all (d : gmap string T) (l : list (string * T)) : gmap string T :=
  foldl (fun d kv => <[kv.1 := kv.2]> d) d l.

Definition state_dict (model : nn) : gmap string T :=
  update_all (update_all ∅ ((fun kv => (kv.1, data kv.2)) <$> named_parameters model))
             (named_buffers model).

(** The loop over [named_parameters()] of the stage 3 branch: one
    gathered scope for each parameter on every process, the data kept
    on rank 0 only. *)
Fixpoint gather_parameters (is_rank_0 : bool) (ps : list (string * parameter T))
    (output_state_dict : gmap string T) : list (event T) * gmap string T :=
  match ps with
  | [] => ([], output_state_dict)
  | (k, v) :: rest =>
      let params_to_fetch := _z3_params_to_fetch [v] in
      let scope := GatheredParameters params_to_fetch (0 <? Z.of_nat (length params_to_fetch)) in
      let vv := data v in
      let output_state_dict := if is_rank_0 then <[k := vv]> output_state_dict else output_state_dict in
      let '(events, d) := gather_parameters is_rank_0 rest output_state_dict in
      (scope :: events, d)
  end.

(** [save_model(model, path)] on the process of rank [rank]: the events
    it leaves, in order. *)
Definition save_model (self : strategy) (rank : Z) (model : nn) (path : string) : list (event T) :=
  let is_rank_0 := rank =? 0 in
  let model_to_save := _unwrap_model model in
  let model_to_save :=
    match model_to_save with
    | PeftModel merged => merged
    | _ => model_to_save
    end in
  if negb (stage self =? 3) then
    if is_rank_0 then [TorchSave path (state_dict model_to_save)] else []
  else
    let '(events, output_state_dict) :=
      gather_parameters is_rank_0 (named_parameters model_to_save) ∅ in
    if is_rank_0
    then events ++ [TorchSave path (update_all output_state_dict (named_buffers model_to_save))]
    else events.

(** The model whose state is saved: unwrapped, and merged when it is a
    [PeftModel]. *)
Definition model_to_save (model : nn) : nn :=
  match _unwrap_model model with
  | PeftModel merged => merged
  | m => m
  end.

(** The scope entered for one parameter. *)
Definition scope_of (kv : string * parameter T) : event T :=
  GatheredParameters (_z3_params_to_fetch [kv.2])
                     (0 <? Z.of_nat (length (_z3_params_to_fetch [kv.2]))).

End Model.
Arguments nn T : clear implicits.

End SaveModel.

(** ** moving_average *)

Module Ema.
Import Zero.

(** [self.time_steps["ema"]], 0 when the key is not there yet, and
    [self] after [self.time_steps["ema"] += 1]. *)
Definition ema_steps (s : strategy) : Z := default 0 (time_steps s !! "ema"%string).

Definition bump (s : strategy) : strategy :=
  set_time_steps (<["ema"%string := ema_steps s + 1]> (time_steps s)) s.

Section Arith.
(** [F] is the type of [beta], [T] the type of tensor data;
    [one_minus beta] is [1 - beta], [scale c t] is [c * t] and
    [add t u] is [t + u]. *)
Context {F T : Type}.
Variable one_minus : F -> F.
Variable scale : F -> T -> T.
Variable add : T -> T -> T.

(** [param_ema.data.copy_((1 - beta) * data + beta * param_ema.data)] *)
Definition blend (beta : F) (param param_ema : parameter T) : parameter T :=
  {| requires_grad := requires_grad param_ema;
     materialized := materialized param_ema;
     data := add (scale (one_minus beta) (data param)) (scale beta (data param_ema)) |}.

(** The loop over [zip(model.parameters(), model_ema.parameters())]:
    the shadow parameters after it and the gathered scopes entered. *)
Fixpoint blend_all (stage : Z) (beta : F) (params params_ema : list (parameter T))
    : list (parameter T) * list (event T) :=
  match params, params_ema with
  | param :: params', param_ema :: params_ema' =>
      let '(rest, events) := blend_all stage beta params' params_ema' in
      if requires_grad param then
        if negb (stage =? 3) then (blend beta param param_ema :: rest, events)
        else
          let params_to_fetch := _z3_params_to_fetch [param; param_ema] in
          (blend beta param param_ema :: rest,
           GatheredParameters params_to_fetch (0 <? Z.of_nat (length params_to_fetch)) :: events)
      else (param_ema :: rest, events)
  | _, _ => (params_ema, [])
  end.

(** What [moving_average] works on: [self], the shadow model and the
    scopes entered so far. *)
Record state := {
  self : strategy;
  model_ema : list (parameter T);
  scopes : list (event T)
}.

Definition moving_average (model : list (parameter T)) (beta : F) : M state unit :=
  (modify (fun st => {| self := bump (self st);
                        model_ema := model_ema st; scopes := scopes st |}) ;;;
   st <~ get ;;
   match pymod (ema_steps (self st)) (accumulated_gradient (self st)) with
   | Raise e => raise e
   | Ok r =>
       if r =? 0 then
         let '(shadow, events) := blend_all (stage (self st)) beta model (model_ema st) in
         modify (fun st => {| self := self st; model_ema := shadow; scopes := scopes st ++ events |})
       else mret tt
   end)%py.

(** [n] calls in a row, the live model and [beta] staying the same;
    the first exception ends the run. *)
Fixpoint calls (n : nat) (model : list (parameter T)) (beta : F) : M state unit :=
  match n with
  | O => mret tt
  | S n' => (moving_average model beta ;;; calls n' model beta)%py
  end.

End Arith.

End Ema.

(** ** prepare: what comes back for an entry *)

Module Entries.
Import Prepare.

(** The model of an entry: the first of the three for a training
    entry, the entry itself otherwise. *)
Definition entry_model (arg : obj) : obj :=
  match arg with
  | Tuple [model; _; _] => model
  | _ => arg
  end.

(** What [ds_init_train_model] or [ds_init_eval_model] returns for an
    entry when the call of [deepspeed.initialize] made for it is the
    [n]-th. *)
Definition prepared (arg : obj) (n : nat) : obj :=
  match arg with
  | Tuple [model; _; _] => Tuple [wrap model (Engine n); EngineOptimizer n; EngineScheduler n]
  | _ => wrap arg (Engine n)
  end.

End Entries.

(** ** load_model *)

Module LoadModel.
Import Zero SaveModel.

Section Model.
Context {T : Type}.

(** The files that [torch.save] has written, by path. *)
Abbreviation disk := (gmap string (gmap string T)).

(** The disk after the events of a method. *)
Definition written (events : list (event T)) (d : disk) : disk :=
  foldl (fun d e => match e with
                    | TorchSave path state_dict => <[path := state_dict]> d
                    | GatheredParameters _ _ => d
                    end) d events.

(** [p.data.copy_(v)] when the state dict has a value for the name. *)
Definition load_parameter (v : option T) (p : parameter T) : parameter T :=
  match v with
  | Some v => {| requires_grad := requires_grad p; materialized := materialized p; data := v |}
  | None => p
  end.

(** The copying part of [load_state_dict]: every parameter and buffer
    whose full name is a key of the state dict takes the value found
    there; the others keep theirs.  [prefix] is the name under which
    the module is reached. *)
Fixpoint load_into (prefix : string) (state_dict : gmap string T) (model : nn T) : nn T :=
  match model with
  | Actor m => Actor (load_into (prefix +:+ "model.") state_dict m)
  | Engine m => Engine (load_into (prefix +:+ "module.") state_dict m)
  | PeftModel m => PeftModel (load_into (prefix +:+ "base_model.model.") state_dict m)
  | Net ps bs =>
      Net ((fun kv => (kv.1, load_parameter (state_dict !! (prefix +:+ kv.1)) kv.2)) <$> ps)
          ((fun kv => (kv.1, default kv.2 (state_dict !! (prefix +:+ kv.1)))) <$> bs)
  end.

(** How [load_model] ends: the model as it is afterwards, or the
    exception of [torch.load] on a path where nothing was saved, or that
    of a strict [load_state_dict] whose keys are not those of the
    model. *)
Inductive outcome :=
| Loaded (model : nn T)
| FileNotFoundError
| MissingOrUnexpectedKeys.

(** [model.load_state_dict(state_dict, strict=strict)] *)
Definition load_state_dict (model : nn T) (state_dict : gmap string T) (strict : bool)
    : outcome :=
  if strict && negb (bool_decide (dom state_dict = dom (SaveModel.state_dict model)))
  then MissingOrUnexpectedKeys
  else Loaded (load_into "" state_dict model).

(** The model with its unwrapped part replaced: [load_state_dict]
    changes, in place, the module that [_unwrap_model] returns. *)
Fixpoint with_unwrapped (f : nn T -> outcome) (model : nn T) : outcome :=
  match model with
  | Actor m =>
      match with_unwrapped f m with
      | Loaded m' => Loaded (Actor m')
      | e => e
      end
  | Engine m =>
      match f m with
      | Loaded m' => Loaded (Engine m')
      | e => e
      end
  | _ => f model
  end.

(** [load_model(model, path, strict=strict, key_replace_fn=...)] *)
Definition load_model (d : disk) (model : nn T) (path : string) (strict : bool)
    (key_replace_fn : option (gmap string T -> gmap string T)) : outcome :=
  match d !! path with
  | None => FileNotFoundError
  | Some state_dict =>
      let state_dict :=
        match key_replace_fn with
        | Some f => f state_dict
        | None => state_dict
        end in
      with_unwrapped (fun unwrapped_model => load_state_dict unwrapped_model state_dict strict)
                     model
  end.

(** A model none of whose layers is a [PeftModel]. *)
Fixpoint no_peft (model : nn T) : Prop :=
  match model with
  | Actor m | Engine m => no_peft m
  | PeftModel _ => False
  | Net _ _ => True
  end.

End Model.
Arguments outcome T : clear implicits.

End LoadModel.

(** ** save_hf_format *)

Module HfFormat.
Import Zero SaveModel.

(** [os.path.join(a, b)] for a relative [b]. *)
Fixpoint ends_with_slash (a : string) : bool :=
  match a with
  | EmptyString => false
  | String c EmptyString => Ascii.eqb c "/"%char
  | String _ rest => ends_with_slash rest
  end.

Definition path_join (a b : string) : string :=
  if String.eqb a "" then b
  else if ends_with_slash a then a +:+ b
  else a +:+ "/" +:+ b.

Definition CONFIG_NAME : string := "config.json".
Definition WEIGHTS_NAME : string := "pytorch_model.bin".

(** What [save_hf_format] leaves: the events of [save_model], the
    configuration written with [to_json_file], the vocabulary written
    with [save_vocabulary]. *)
Inductive hf_event (T : Type) :=
| Weights (e : event T)
| ToJsonFile (output_config_file : string)
| SaveVocabulary (output_dir : string).
Arguments Weights {T} e.
Arguments ToJsonFile {T} output_config_file.
Arguments SaveVocabulary {T} output_dir.

Definition save_hf_format {T} (self : strategy) (rank : Z) (model : nn T)
    (output_dir : string) : list (hf_event T) :=
  (Weights <$> save_model self rank model (path_join output_dir WEIGHTS_NAME)) ++
  (if rank =? 0
   then [ToJsonFile (path_join output_dir CONFIG_NAME); SaveVocabulary output_dir]
   else []).

Definition is_weights {T} (e : hf_event T) : bool :=
  match e with Weights _ => true | _ => false end.

End HfFormat.

(** ** Example data *)

Module Examples.

Definition f64_0 : spec_float := S754_zero false.

(** A strategy as a PPO run with a pretraining corpus sets it up, on a
    group of 8 processes: [accumulated_gradient] is 128 // 4 // 8. *)
Definition ppo_strategy : strategy :=
  {| seed := 42; max_norm := f64_0; micro_train_batch_size := 4;
     train_batch_size := 128; stage := 2; max_out_tokens := 512;
     inference_tp_size := 1; bf16 := true; adam_offload := false;
     is_rlhf := false; zpg := 1; pretrain_data := Some "corpus"%string;
     local_rank := 0; time_steps := ∅; world_size := 8;
     accumulated_gradient := 4 |}.

(** A configuration builder that returns the empty dict. *)
Definition no_config {A} (_ : A) : Prepare.ds_config := ∅.

(** A group of one process, and process [r] of a group of [n] in which
    every process contributes its rank to every collective call. *)
Definition solo : Reduce.process_group :=
  {| Reduce.world_size := 1; Reduce.get_rank := 0;
     Reduce.peer := fun _ _ _ => S754_nan |}.

Definition ranks (n r : nat) : Reduce.process_group :=
  {| Reduce.world_size := n; Reduce.get_rank := r;
     Reduce.peer := fun _ i _ => Reduce.f32_of_rank i |}.

(** Metrics as a training step reports them: a loss of 0.1 and a
    tensor of two float32 values on the accelerator. *)
Definition f32 (z : Z) : spec_float := binary_normalize 24 128 z 0 false.

Definition metrics : list (string * Reduce.value) :=
  [("loss"%string, Reduce.Scalar (Torch.PyFloat Torch.f64_0_1));
   ("reward"%string,
    Reduce.Tensor {| Torch.device_type := Torch.cuda; Torch.elems := [f32 1; f32 2] |})].

(** The same strategy under ZeRO stage 3. *)
Definition zero3_strategy : strategy :=
  {| seed := 42; max_norm := f64_0; micro_train_batch_size := 4;
     train_batch_size := 128; stage := 3; max_out_tokens := 512;
     inference_tp_size := 1; bf16 := true; adam_offload := false;
     is_rlhf := false; zpg := 1; pretrain_data := Some "corpus"%string;
     local_rank := 0; time_steps := ∅; world_size := 8;
     accumulated_gradient := 4 |}.

(** An actor around an engine around a network of two parameters, one
    of them sharded away, and one buffer. *)
Definition tiny_actor : SaveModel.nn (list spec_float) :=
  SaveModel.Actor (SaveModel.Engine (SaveModel.Net
    [("embed.weight"%string,
      {| Zero.requires_grad := true; Zero.materialized := false; Zero.data := [f32 1; f32 2] |});
     ("lm_head.weight"%string,
      {| Zero.requires_grad := false; Zero.materialized := true; Zero.data := [f32 3] |})]
    [("rotary.inv_freq"%string, [f32 4])])).

(** 0.992 as a binary64; a live model of two parameters, the second
    frozen; and a shadow model before the first call of
    [moving_average]. *)
Definition beta_0_992 : spec_float := S754_finite false 8935141660703064 (-53).

Definition live_model : list (Zero.parameter (list spec_float)) :=
  [{| Zero.requires_grad := true; Zero.materialized := true; Zero.data := [f32 1; f32 2] |};
   {| Zero.requires_grad := false; Zero.materialized := true; Zero.data := [f32 3] |}].

Definition ema_start : Ema.state :=
  {| Ema.self := ppo_strategy;
     Ema.model_ema :=
       [{| Zero.requires_grad := false; Zero.materialized := true; Zero.data := [f32 5; f32 6] |};
        {| Zero.requires_grad := false; Zero.materialized := true; Zero.data := [f32 7] |}];
     Ema.scopes := [] |}.

Import Ckpt.

(** Four checkpoints of 10, 20, 30 and 40 GB, [a] the oldest and [d]
    the most recent, in an order [os.listdir] may give them. *)
Definition four_ckpts : listing :=
  [ckpt "d" 4 40; ckpt "a" 1 10; ckpt "c" 3 30; ckpt "b" 2 20].

(** An engine whose [save_checkpoint] writes one directory of [gb]
    gigabytes under the tag. *)
Definition engine_writing (gb : N) : model :=
  DeepSpeedEngine (fun tag save_dir => rmtree tag save_dir ++ [ckpt tag 5 gb]).


(** The four checkpoints with the file [latest] that the engine keeps
    beside them. *)
Definition with_latest : listing := ("latest"%string, File 12) :: four_ckpts.

(** Process [r] of a group of [n] whose other processes hand the
    elements 1, 2 to every collective call. *)
Definition twins (n r : nat) : Reduce.process_group :=
  {| Reduce.world_size := n; Reduce.get_rank := r;
     Reduce.peer := fun _ _ i => match i with O => f32 1 | _ => f32 2 end |}.

(** A strategy whose batch of 16 is smaller than one micro batch of 4
    on each of 8 processes, and a shadow model under it. *)
Definition starved_strategy : strategy :=
  {| seed := 42; max_norm := f64_0; micro_train_batch_size := 4;
     train_batch_size := 16; stage := 2; max_out_tokens := 512;
     inference_tp_size := 1; bf16 := true; adam_offload := false;
     is_rlhf := false; zpg := 1; pretrain_data := None;
     local_rank := 0; time_steps := ∅; world_size := 8;
     accumulated_gradient := 0 |}.

Definition ema_starved : Ema.state :=
  {| Ema.self := starved_strategy;
     Ema.model_ema := Ema.model_ema ema_start;
     Ema.scopes := [] |}.

(** The network inside [tiny_actor]. *)
Definition tiny_net : SaveModel.nn (list spec_float) :=
  SaveModel.Net
    [("embed.weight"%string,
      {| Zero.requires_grad := true; Zero.materialized := false; Zero.data := [f32 1; f32 2] |});
     ("lm_head.weight"%string,
      {| Zero.requires_grad := false; Zero.materialized := true; Zero.data := [f32 3] |})]
    [("rotary.inv_freq"%string, [f32 4])].
End Examples.

(** * Properties *)

(** ** The retention sweep *)

Section CkptFacts.
Import Ckpt.

Lemma elem_of_insert_by_mtime (x y : string * Z) l :
  y ∈ insert_by_mtime x l <-> y = x \/ y ∈ l.
Proof.
  induction l as [|z l IH]; simpl.
  - rewrite list_elem_of_singleton, elem_of_nil. tauto.
  - destruct (x.2 <=? z.2).
    + by rewrite elem_of_cons.
    + rewrite !elem_of_cons, IH. tauto.
Qed.

Lemma elem_of_sort_by_mtime (y : string * Z) l :
  y ∈ sort_by_mtime l <-> y ∈ l.
Proof.
  induction l as [|z l IH]; simpl; [done|].
  rewrite elem_of_insert_by_mtime, IH, elem_of_cons. tauto.
Qed.

Lemma length_insert_by_mtime x l :
  length (insert_by_mtime x l) = S (length l).
Proof.
  induction l as [|z l IH]; simpl; [done|].
  destruct (x.2 <=? z.2); simpl; congruence.
Qed.

Lemma length_sort_by_mtime l : length (sort_by_mtime l) = length l.
Proof.
  induction l as [|z l IH]; simpl; [done|].
  rewrite length_insert_by_mtime. congruence.
Qed.

Lemma insert_head_oldest x l :
  head_oldest l -> head_oldest (insert_by_mtime x l).
Proof.
  destruct l as [|z l]; simpl.
  - intros _ y Hy. apply list_elem_of_singleton in Hy. subst. lia.
  - intros Hz. destruct (x.2 <=? z.2) eqn:Hle; simpl.
    + intros y Hy. apply elem_of_cons in Hy as [->|Hy]; [lia|].
      specialize (Hz y Hy). lia.
    + intros y Hy. apply elem_of_cons in Hy as [->|Hy]; [lia|].
      apply elem_of_insert_by_mtime in Hy as [->|Hy]; [lia|].
      apply Hz. by right.
Qed.

Lemma sort_head_oldest l : head_oldest (sort_by_mtime l).
Proof.
  induction l as [|z l IH]; simpl; [done|]. by apply insert_head_oldest.
Qed.

Lemma sort_first_is_oldest l p mt rest :
  sort_by_mtime l = (p, mt) :: rest ->
  (p, mt) ∈ l /\ forall q mt', (q, mt') ∈ l -> mt <= mt'.
Proof.
  intros Hs. split.
  - apply elem_of_sort_by_mtime. rewrite Hs. by left.
  - intros q mt' Hq. pose proof (sort_head_oldest l) as H.
    rewrite Hs in H. simpl in H.
    apply (H (q, mt')). rewrite <- Hs. by apply elem_of_sort_by_mtime.
Qed.

Lemma elem_of_subdirs p mt (save_dir : listing) :
  (p, mt) ∈ subdirs save_dir <-> exists es, (p, Folder mt es) ∈ save_dir.
Proof.
  unfold subdirs. rewrite list_elem_of_omap. split.
  - intros [[d n] [Hin Hn]]. simpl in Hn. destruct n as [|mt' es]; [done|].
    inversion Hn; subst. by exists es.
  - intros [es Hin]. by exists (p, Folder mt es).
Qed.

Lemma find_entry_is_Some p n (save_dir : listing) :
  (p, n) ∈ save_dir -> is_Some (find_entry p save_dir).
Proof.
  induction save_dir as [|[d n'] l IH]; intros Hin.
  - by apply elem_of_nil in Hin.
  - simpl. destruct (String.eqb d p) eqn:Hd; [by eexists|].
    apply elem_of_cons in Hin as [Heq|Hin]; [|by apply IH].
    inversion Heq; subst. by rewrite String.eqb_refl in Hd.
Qed.

(** A listed subdirectory exists. *)
Lemma subdir_exists p mt (save_dir : listing) :
  (p, mt) ∈ subdirs save_dir -> path_exists p save_dir = true.
Proof.
  intros [es Hin]%elem_of_subdirs. unfold path_exists.
  by destruct (find_entry_is_Some _ _ _ Hin) as [n ->].
Qed.

Lemma subdirs_cons d n (l : listing) :
  subdirs ((d, n) :: l) =
  match n with
  | Folder mt _ => (d, mt) :: subdirs l
  | File _ => subdirs l
  end.
Proof. by destruct n. Qed.

Lemma rmtree_cons p d n (l : listing) :
  rmtree p ((d, n) :: l) = if decide (d ≠ p) then (d, n) :: rmtree p l else rmtree p l.
Proof. unfold rmtree. by rewrite filter_cons. Qed.

Lemma length_subdirs_rmtree_le p (save_dir : listing) :
  (length (subdirs (rmtree p save_dir)) <= length (subdirs save_dir))%nat.
Proof.
  induction save_dir as [|[d n] l IH]; [done|].
  rewrite rmtree_cons. destruct (decide (d ≠ p));
    rewrite !subdirs_cons; destruct n; simpl; lia.
Qed.

(** Deleting a listed subdirectory leaves fewer of them. *)
Lemma length_subdirs_rmtree p mt (save_dir : listing) :
  (p, mt) ∈ subdirs save_dir ->
  (length (subdirs (rmtree p save_dir)) < length (subdirs save_dir))%nat.
Proof.
  induction save_dir as [|[d n] l IH]; intros Hin.
  - by apply elem_of_nil in Hin.
  - pose proof (length_subdirs_rmtree_le p l) as Hle.
    rewrite rmtree_cons. rewrite subdirs_cons in Hin.
    destruct (decide (d ≠ p)) as [Hne|Heq].
    + rewrite !subdirs_cons. destruct n as [|mt' es]; simpl.
      * by apply IH.
      * apply elem_of_cons in Hin as [Heq|Hin]; [congruence|].
        apply IH in Hin. lia.
    + rewrite subdirs_cons. destruct n as [|mt' es]; simpl.
      * apply IH in Hin. lia.
      * lia.
Qed.

(** The loop stops: a round that does not stop deletes a subdirectory,
    so one round more than there are subdirectories is enough. *)
Lemma sweep_stops fuel max_num max_size (save_dir : listing) printed :
  (length (subdirs save_dir) < fuel)%nat ->
  is_Some (sweep fuel max_num max_size save_dir printed).
Proof.
  revert save_dir printed.
  induction fuel as [|fuel IH]; intros save_dir printed Hlen; [lia|].
  simpl.
  destruct ((Z.of_nat (length (sort_by_mtime (subdirs save_dir))) >=? max_num)
            || (total_size save_dir (sort_by_mtime (subdirs save_dir)) >? max_size));
    [|by eexists].
  destruct (sort_by_mtime (subdirs save_dir)) as [|[p mt] rest] eqn:Hs; [by eexists|].
  apply sort_first_is_oldest in Hs as [Hin _].
  rewrite (subdir_exists _ _ _ Hin).
  apply IH. apply length_subdirs_rmtree in Hin. lia.
Qed.

(** What holds when the loop has stopped without an exception. *)
Lemma sweep_stopped fuel max_num max_size (save_dir : listing) printed kept printed' :
  sweep fuel max_num max_size save_dir printed = Some (Ok (kept, printed')) ->
  exists deleted,
    printed' = printed ++ deleted /\
    kept = foldl (fun d p => rmtree p d) save_dir deleted /\
    oldest_first save_dir deleted /\
    count kept < max_num /\
    bytes kept <= max_size.
Proof.
  revert save_dir printed.
  induction fuel as [|fuel IH]; intros save_dir printed; [done|].
  simpl.
  destruct ((Z.of_nat (length (sort_by_mtime (subdirs save_dir))) >=? max_num)
            || (total_size save_dir (sort_by_mtime (subdirs save_dir)) >? max_size)) eqn:Hc.
  - destruct (sort_by_mtime (subdirs save_dir)) as [|[p mt] rest] eqn:Hs; [done|].
    pose proof (sort_first_is_oldest _ _ _ _ Hs) as [Hin Hmin].
    rewrite (subdir_exists _ _ _ Hin). intros Hrec.
    apply IH in Hrec as (deleted & -> & -> & Hold & Hcount & Hbytes).
    exists (p :: deleted). rewrite <- app_assoc. simpl.
    repeat split; try done. by exists mt.
  - intros [= <- <-]. exists []. rewrite app_nil_r. simpl.
    apply orb_false_iff in Hc as [Hn Hb].
    unfold count, bytes. rewrite length_sort_by_mtime in Hn.
    repeat split; try done; lia.
Qed.

End CkptFacts.

Section CkptClaims.
Import Ckpt Examples.

Lemma length_subdirs (save_dir : listing) :
  (length (subdirs save_dir) <= length save_dir)%nat.
Proof.
  induction save_dir as [|[d n] l IH]; [done|].
  rewrite subdirs_cons. destruct n; simpl; lia.
Qed.

(** C1, as the code has it.  On the primary process [save_ckpt] ends
    (one round of fuel more than [save_dir] has entries is enough).
    When it ends without an exception, the directories it has printed as
    deleted were each the oldest subdirectory at the time; what is left
    after the deletions, before the checkpoint is written, counts fewer
    than [max_num] subdirectories holding at most [max_mem] GB; the
    checkpoint is then written into what is left, and is counted against
    neither bound: the count stays within [max_num] when the save adds
    at most one subdirectory. *)
Theorem save_ckpt_sweeps_before_saving fuel m (save_dir : listing) tag max_num max_mem :
  (length save_dir < fuel)%nat ->
  exists r,
    save_ckpt fuel true m save_dir tag max_num max_mem = Some r /\
    forall root' printed, r = Ok (root', printed) ->
      let kept := foldl (fun d p => rmtree p d) save_dir printed in
      oldest_first save_dir printed /\
      count kept < max_num /\
      bytes kept <= MAX_SIZE max_mem /\
      match m with
      | DeepSpeedEngine save_checkpoint => root' = save_checkpoint tag kept
      | TorchModule size => torch_save (tag +:+ ".pt") size kept = Ok root'
      end /\
      (count root' <= count kept + 1 -> count root' <= max_num).
Proof.
  intros Hfuel. unfold save_ckpt.
  destruct (sweep_stops fuel max_num (MAX_SIZE max_mem) save_dir []) as [swept Hs].
  { pose proof (length_subdirs save_dir). lia. }
  rewrite Hs. simpl.
  destruct swept as [[kept printed]|e].
  - apply sweep_stopped in Hs as (deleted & Hp & Hk & Hold & Hcount & Hbytes).
    simpl in Hp. subst printed.
    destruct m as [save_checkpoint|size].
    + eexists; split; [done|]. intros root' printed [= <- <-].
      simpl. rewrite <- Hk. repeat split; try done. lia.
    + destruct (torch_save (tag +:+ ".pt") size kept) as [written|e] eqn:Hw.
      * eexists; split; [done|]. intros root' printed [= <- <-].
        simpl. rewrite <- Hk. repeat split; try done. lia.
      * eexists; split; [done|]. intros root' printed [=].
  - eexists; split; [done|]. intros root' printed [=].
Qed.

Lemma save_ckpt_sweeps_before_saving_witness :
  exists r,
    save_ckpt 5 true (engine_writing 40) four_ckpts "global_step5" 10 50 = Some r /\
    forall root' printed, r = Ok (root', printed) ->
      let kept := foldl (fun d p => rmtree p d) four_ckpts printed in
      oldest_first four_ckpts printed /\
      count kept < 10 /\
      bytes kept <= MAX_SIZE 50 /\
      root' = rmtree "global_step5" kept ++ [ckpt "global_step5" 5 40] /\
      (count root' <= count kept + 1 -> count root' <= 10).
Proof.
  apply (save_ckpt_sweeps_before_saving 5 (engine_writing 40) four_ckpts
           "global_step5" 10 50).
  simpl. lia.
Defined.

(** C1, as it is stated, fails on the size: with a budget of 50 GB
    the sweep keeps the checkpoint of 40 GB, and the engine then writes
    another 40 GB, so the call ends with 80 GB under [save_dir]. *)
Lemma save_ckpt_ends_over_budget :
  exists root' printed,
    save_ckpt 5 true (engine_writing 40) four_ckpts "global_step5" 10 50
      = Some (Ok (root', printed)) /\
    count root' = 2 /\
    bytes root' = 80 * Z.of_N GB /\
    ~ (count root' <= 10 /\ bytes root' <= MAX_SIZE 50).
Proof.
  eexists _, _. split; [vm_compute; reflexivity|].
  split; [reflexivity|]. split; [reflexivity|].
  intros [_ H]. vm_compute in H. by apply H.
Qed.

(** C2, as the code has it.  With checkpoints of 10, 20, 30 and 40 GB,
    a budget of 50 GB and [max_num] 10, the sweep deletes the three
    oldest: after two deletions 70 GB are left, still over the budget;
    the 40 GB that remain are within it.  With [max_num] 2 and 1000 GB
    the sweep again leaves only the most recent checkpoint, so that the
    one about to be written is the second. *)
Theorem sweep_of_four_ckpts fuel save_checkpoint tag :
  save_ckpt (4 + fuel) true (DeepSpeedEngine save_checkpoint) four_ckpts tag 10 50
    = Some (Ok (save_checkpoint tag [ckpt "d" 4 40], ["a"; "b"; "c"]%string)) /\
  bytes [ckpt "d" 4 40] = 40 * Z.of_N GB /\
  bytes [ckpt "d" 4 40] <= MAX_SIZE 50 /\
  bytes [ckpt "d" 4 40; ckpt "c" 3 30] > MAX_SIZE 50 /\
  save_ckpt (4 + fuel) true (DeepSpeedEngine save_checkpoint) four_ckpts tag 2 1000
    = Some (Ok (save_checkpoint tag [ckpt "d" 4 40], ["a"; "b"; "c"]%string)).
Proof.
  repeat split; try reflexivity.
  vm_compute. discriminate.
Qed.

(** C2, as it is stated, fails: the sweep does not stop after the two
    oldest, it deletes the checkpoint of 30 GB as well. *)
Lemma sweep_of_four_ckpts_deletes_three :
  exists root' printed,
    save_ckpt 5 true (engine_writing 40) four_ckpts "global_step5" 10 50
      = Some (Ok (root', printed)) /\
    printed = ["a"; "b"; "c"]%string /\
    printed <> ["a"; "b"]%string /\
    find_entry "c" root' = None.
Proof.
  eexists _, _. split; [vm_compute; reflexivity|].
  repeat split; done.
Qed.

End CkptClaims.

(** ** prepare *)

Section PrepareFacts.
Import Prepare.

Variable get_train_ds_config : train_args -> ds_config.
Variable get_eval_ds_config : eval_args -> ds_config.

Local Abbreviation prepare := (prepare get_train_ds_config get_eval_ds_config).
Local Abbreviation prepare_loop := (prepare_loop get_train_ds_config get_eval_ds_config).
Local Abbreviation ds_init_train_model := (ds_init_train_model get_train_ds_config).
Local Abbreviation ds_init_eval_model := (ds_init_eval_model get_eval_ds_config).

(** A training entry makes one call of [deepspeed.initialize]. *)
Lemma ds_init_train_model_call model optim scheduler self calls :
  exists c,
    ds_init_train_model model optim scheduler (self, calls)
      = (Ok (Tuple [wrap model (Engine (length calls));
                    EngineOptimizer (length calls); EngineScheduler (length calls)]),
         (self, calls ++ [c])) /\
    init_model c = inner model /\
    init_config c !! "train_batch_size"%string = Some (CInt (handed_batch_size self model)).
Proof.
  unfold Prepare.ds_init_train_model, mbind, get, initialize, mret.
  cbn [fst snd]. eexists. split; [reflexivity|]. split; [reflexivity|].
  cbn [init_config]. by rewrite lookup_insert_eq.
Qed.

(** So does an evaluation entry. *)
Lemma ds_init_eval_model_call model self calls :
  exists c,
    ds_init_eval_model model (self, calls)
      = (Ok (wrap model (Engine (length calls))), (self, calls ++ [c])).
Proof.
  unfold Prepare.ds_init_eval_model, mbind, get, initialize, mret.
  cbn [fst snd]. destruct (getattr_is_ema model); eexists; reflexivity.
Qed.

Lemma prepare_loop_step arg rest ret self calls :
  well_formed arg ->
  exists r c,
    prepare_loop (arg :: rest) ret (self, calls)
      = prepare_loop rest (ret ++ [r]) (self, calls ++ [c]).
Proof.
  intros Hwf.
  assert (Heval : forall model,
    exists r c, (r <~ ds_init_eval_model model ;; prepare_loop rest (ret ++ [r]))%py (self, calls)
                = prepare_loop rest (ret ++ [r]) (self, calls ++ [c])).
  { intros model. destruct (ds_init_eval_model_call model self calls) as [c Hc].
    eexists _, c. unfold mbind at 1. by rewrite Hc. }
  destruct arg as [b m|name b|items|items|n|n|n]; simpl; try apply Heval.
  destruct items as [|model [|optim [|scheduler [|]]]]; try done.
  destruct (ds_init_train_model_call model optim scheduler self calls) as (c & Hc & _).
  eexists _, c. unfold mbind at 1. by rewrite Hc.
Qed.

(** The loop makes one call for each entry of a well-formed prefix. *)
Lemma prepare_loop_prefix pre rest ret self calls :
  Forall well_formed pre ->
  exists rs more,
    length more = length pre /\
    prepare_loop (pre ++ rest) ret (self, calls)
      = prepare_loop rest (ret ++ rs) (self, calls ++ more).
Proof.
  intros Hpre. revert ret calls.
  induction Hpre as [|arg pre Harg _ IH]; intros ret calls.
  - exists [], []. by rewrite !app_nil_r.
  - destruct (prepare_loop_step arg (pre ++ rest) ret self calls Harg) as (r & c & Hstep).
    destruct (IH (ret ++ [r]) (calls ++ [c])) as (rs & more & Hlen & Hrec).
    exists (r :: rs), (c :: more). split; [simpl; lia|].
    simpl app at 1. rewrite Hstep, Hrec.
    by rewrite <- !app_assoc.
Qed.

(** The loop never changes [self] and only adds calls. *)
Lemma prepare_loop_appends args ret self calls :
  exists more, (prepare_loop args ret (self, calls)).2 = (self, calls ++ more).
Proof.
  revert ret calls. induction args as [|arg args IH]; intros ret calls.
  - exists []. by rewrite app_nil_r.
  - assert (Heval : forall model,
      exists more, ((r <~ ds_init_eval_model model ;; prepare_loop args (ret ++ [r]))%py
                     (self, calls)).2 = (self, calls ++ more)).
    { intros model. destruct (ds_init_eval_model_call model self calls) as [c Hc].
      unfold mbind at 1. rewrite Hc.
      destruct (IH (ret ++ [wrap model (Engine (length calls))]) (calls ++ [c])) as [more Hm].
      exists (c :: more). rewrite Hm. by rewrite <- app_assoc. }
    destruct arg as [b m|name b|items|items|n|n|n]; simpl; try apply Heval.
    destruct items as [|model [|optim [|scheduler [|]]]];
      try (exists []; by rewrite app_nil_r).
    destruct (ds_init_train_model_call model optim scheduler self calls) as (c & Hc & _).
    unfold mbind at 1. rewrite Hc.
    match goal with |- context [prepare_loop args ?r ?s] =>
      destruct (IH r (calls ++ [c])) as [more Hm] end.
    exists (c :: more). rewrite Hm. by rewrite <- app_assoc.
Qed.

(** C6, as the code has it.  The size of a tuple is checked when the
    loop reaches it.  With well-formed entries before a tuple whose
    size is not 3, [prepare] raises AssertionError with the message
    that names the size, after one call of [deepspeed.initialize] for
    each entry before the tuple and none for the tuple or what follows
    it: no engine call has been made only when the tuple comes first. *)
Theorem prepare_rejects_tuple pre items post is_rlhf self calls :
  Forall well_formed pre ->
  length items ≠ 3%nat ->
  exists more,
    length more = length pre /\
    prepare (pre ++ Tuple items :: post) is_rlhf (self, calls)
      = (Raise (AssertionError (size_message (length items))),
         (set_is_rlhf is_rlhf self, calls ++ more)).
Proof.
  intros Hpre Hsize.
  destruct (prepare_loop_prefix pre (Tuple items :: post) [] (set_is_rlhf is_rlhf self)
              calls Hpre) as (rs & more & Hlen & Hloop).
  exists more. split; [done|].
  unfold Prepare.prepare, mbind at 1, modify. cbn [fst snd].
  unfold mbind at 1. rewrite Hloop. simpl.
  by destruct items as [|model [|optim [|scheduler [|]]]].
Qed.

(** C8.  Whatever comes before and after a training entry, the call of
    [deepspeed.initialize] made for it is handed the entry's model and a
    configuration whose [train_batch_size] is twice the configured one
    exactly when [is_rlhf] is set, the model is an Actor and
    [pretrain_data] is given, and is the configured one otherwise. *)
Theorem train_batch_size_doubled pre model optim scheduler post is_rlhf self calls :
  Forall well_formed pre ->
  train_batch_size self ≠ 0 ->
  exists c,
    (prepare (pre ++ Tuple [model; optim; scheduler] :: post) is_rlhf (self, calls)).2.2
      !! (length calls + length pre)%nat = Some c /\
    init_model c = inner model /\
    let handed := init_config c !! "train_batch_size"%string in
    let ptx := is_rlhf = true /\ is_Actor model = true /\ pretrain_data self ≠ None in
    (handed = Some (CInt (train_batch_size self * 2)) <-> ptx) /\
    (~ ptx -> handed = Some (CInt (train_batch_size self))).
Proof.
  intros Hpre Hnz.
  destruct (prepare_loop_prefix pre (Tuple [model; optim; scheduler] :: post) []
              (set_is_rlhf is_rlhf self) calls Hpre) as (rs & more & Hlen & Hloop).
  destruct (ds_init_train_model_call model optim scheduler (set_is_rlhf is_rlhf self)
              (calls ++ more)) as (c & Hc & Hmodel & Hcfg).
  exists c. split; [|split; [done|]].
  - unfold Prepare.prepare, mbind at 1, modify. cbn [fst snd].
    unfold mbind at 1. rewrite Hloop. cbn [Prepare.prepare_loop].
    unfold mbind at 1. rewrite Hc.
    match goal with |- context [prepare_loop post ?r ?s] =>
      destruct (prepare_loop_appends post r (set_is_rlhf is_rlhf self)
                  ((calls ++ more) ++ [c])) as [later Hlater];
      destruct (prepare_loop post r s) as [[ret|e] st'] end;
      simpl in Hlater |- *; subst st'; simpl;
      replace (length calls + length pre)%nat with (length (calls ++ more))
        by (rewrite length_app; lia);
      rewrite <- (app_assoc (calls ++ more)); by apply list_lookup_middle.
  - cbn zeta. rewrite Hcfg. unfold handed_batch_size. simpl.
    destruct is_rlhf, (is_Actor model); simpl;
      try (split; [split; [intros [=]; lia | by intros (? & ? & ?)] | done]).
    destruct (pretrain_data self) as [corpus|] eqn:Hdata.
    + rewrite bool_decide_true by done. split; [|intros []; done].
      split; done.
    + rewrite bool_decide_false by (intros H; by apply H).
      split; [|done]. split; [intros [=]; lia|]. by intros (_ & _ & H).
Qed.

(** C10.  Without entries [prepare] returns the empty list: nothing is
    checked and the engine is not called.  A single entry comes back on
    its own, not in a list. *)
Theorem prepare_no_entries is_rlhf self calls :
  prepare [] is_rlhf (self, calls)
    = (Ok (List []), (set_is_rlhf is_rlhf self, calls)) /\
  forall name is_ema, exists c,
    prepare [Obj name is_ema] is_rlhf (self, calls)
      = (Ok (Engine (length calls)), (set_is_rlhf is_rlhf self, calls ++ [c])).
Proof.
  split; [reflexivity|]. intros name is_ema.
  destruct (ds_init_eval_model_call (Obj name is_ema) (set_is_rlhf is_rlhf self) calls)
    as [c Hc].
  exists c. unfold Prepare.prepare, mbind at 1, modify. cbn [fst snd].
  unfold mbind at 1. cbn [Prepare.prepare_loop]. unfold mbind at 1. by rewrite Hc.
Qed.

End PrepareFacts.

Section PrepareExamples.
Import Prepare Examples.

Lemma prepare_rejects_tuple_witness :
  exists more,
    length more = 1%nat /\
    prepare no_config no_config
        ([Obj "reward_model" false] ++ Tuple [Obj "actor" false; Obj "optim" false] :: [])
        true (ppo_strategy, [])
      = (Raise (AssertionError (size_message 2)), (set_is_rlhf true ppo_strategy, [] ++ more)).
Proof.
  apply (prepare_rejects_tuple no_config no_config [Obj "reward_model" false]
           [Obj "actor" false; Obj "optim" false] [] true ppo_strategy []).
  - repeat constructor.
  - simpl. lia.
Defined.

(** C6, as it is stated, fails: with a model before the tuple of two,
    the engine has been called for that model when the assertion is
    raised. *)
Lemma prepare_initializes_before_rejecting :
  exists e self calls,
    prepare no_config no_config
        [Obj "reward_model" false; Tuple [Obj "actor" false; Obj "optim" false]]
        true (ppo_strategy, [])
      = (Raise e, (self, calls)) /\
    e = AssertionError (size_message 2) /\
    init_model <$> calls = [Obj "reward_model" false] /\
    calls ≠ [].
Proof.
  eexists _, _, _. split; [reflexivity|]. repeat split; done.
Qed.

Lemma train_batch_size_doubled_witness :
  exists c,
    (prepare no_config no_config
       ([Obj "critic" false] ++
        Tuple [Actor false (Obj "llama" false); Obj "adam" false; Obj "cosine" false] :: [])
       true (ppo_strategy, [])).2.2 !! (0 + 1)%nat = Some c /\
    init_model c = Obj "llama" false /\
    let handed := init_config c !! "train_batch_size"%string in
    let ptx := true = true /\ true = true /\ pretrain_data ppo_strategy ≠ None in
    (handed = Some (CInt (128 * 2)) <-> ptx) /\
    (~ ptx -> handed = Some (CInt 128)).
Proof.
  apply (train_batch_size_doubled no_config no_config [Obj "critic" false]
           (Actor false (Obj "llama" false)) (Obj "adam" false) (Obj "cosine" false)
           [] true ppo_strategy []).
  - repeat constructor.
  - simpl. lia.
Defined.

End PrepareExamples.

(** ** save_model *)

Section SaveModelFacts.
Import Zero SaveModel.
Context {T : Type}.

Lemma gather_parameters_events is_rank_0 (ps : list (string * parameter T)) d :
  gather_parameters is_rank_0 ps d
    = (scope_of <$> ps,
       if is_rank_0 then update_all d ((fun kv => (kv.1, data kv.2)) <$> ps) else d).
Proof.
  revert d. induction ps as [|[k v] ps IH]; intros d.
  - by destruct is_rank_0.
  - cbn [gather_parameters]. rewrite IH. destruct is_rank_0; reflexivity.
Qed.

Lemma filter_gather_scopes (ps : list (string * parameter T)) :
  filter (fun e => is_gather e = true) (scope_of <$> ps) = scope_of <$> ps.
Proof.
  induction ps as [|kv ps IH]; [done|].
  rewrite fmap_cons, filter_cons_True by done. by rewrite IH.
Qed.

Lemma filter_save_scopes (ps : list (string * parameter T)) :
  filter (fun e => is_save e = true) (scope_of <$> ps) = [].
Proof.
  induction ps as [|kv ps IH]; [done|].
  rewrite fmap_cons, filter_cons_False by done. by rewrite IH.
Qed.

Lemma save_model_stage_3 self rank (model : nn T) path :
  stage self = 3 ->
  save_model self rank model path
    = (scope_of <$> named_parameters (model_to_save model)) ++
      (if rank =? 0
       then [TorchSave path (state_dict (model_to_save model))]
       else []).
Proof.
  intros Hstage. unfold save_model. rewrite Hstage. simpl negb. cbv iota.
  rewrite gather_parameters_events. unfold model_to_save, state_dict.
  destruct (rank =? 0), (_unwrap_model model); by rewrite ?app_nil_r.
Qed.

(** C7.  Under stage 3, on a process of any rank, [save_model] enters
    one gathered scope for each named parameter of the model it saves;
    the scopes are the same on every rank.  Rank 0 then writes, once and
    after the scopes, the dict of the parameters' data and the buffers;
    a process of another rank keeps nothing of what it gathered and
    writes nothing. *)
Theorem save_model_gathers_on_every_rank self rank (model : nn T) path :
  stage self = 3 ->
  let events := save_model self rank model path in
  let gathers := filter (fun e => is_gather e = true) events in
  let saves := filter (fun e => is_save e = true) events in
  length gathers = length (named_parameters (model_to_save model)) /\
  (forall rank', filter (fun e => is_gather e = true) (save_model self rank' model path)
                 = gathers) /\
  (rank = 0 -> events = gathers ++ saves /\
               saves = [TorchSave path (state_dict (model_to_save model))]) /\
  (rank ≠ 0 -> events = gathers /\ saves = [] /\
               (gather_parameters (rank =? 0) (named_parameters (model_to_save model)) ∅).2
                 = ∅).
Proof.
  intros Hstage. cbn zeta. rewrite save_model_stage_3 by done.
  rewrite !filter_app, filter_gather_scopes, filter_save_scopes.
  split; [|split; [|split]].
  - destruct (rank =? 0); simpl; rewrite ?filter_cons_False, ?filter_nil by done;
      by rewrite app_nil_r, length_fmap.
  - intros rank'. rewrite save_model_stage_3 by done.
    rewrite filter_app, filter_gather_scopes.
    destruct (rank =? 0), (rank' =? 0);
      by rewrite ?filter_cons_False, ?filter_nil by done.
  - intros ->. simpl. rewrite filter_cons_False, filter_nil by done.
    rewrite filter_cons_True, filter_nil by done. by rewrite app_nil_r.
  - intros Hrank. apply Z.eqb_neq in Hrank.
    rewrite gather_parameters_events, Hrank.
    by rewrite !filter_nil, !app_nil_r.
Qed.

End SaveModelFacts.

Section SaveModelExamples.
Import Zero SaveModel Examples.

Lemma save_model_gathers_on_every_rank_witness :
  let events := save_model zero3_strategy 1 tiny_actor "pytorch_model.bin" in
  let gathers := filter (fun e => is_gather e = true) events in
  let saves := filter (fun e => is_save e = true) events in
  length gathers = length (named_parameters (model_to_save tiny_actor)) /\
  (forall rank', filter (fun e => is_gather e = true)
                   (save_model zero3_strategy rank' tiny_actor "pytorch_model.bin")
                 = gathers) /\
  (1 = 0 -> events = gathers ++ saves /\
            saves = [TorchSave "pytorch_model.bin" (state_dict (model_to_save tiny_actor))]) /\
  (1 ≠ 0 -> events = gathers /\ saves = [] /\
            (gather_parameters (1 =? 0) (named_parameters (model_to_save tiny_actor)) ∅).2
              = ∅).
Proof.
  apply (save_model_gathers_on_every_rank zero3_strategy 1 tiny_actor "pytorch_model.bin").
  reflexivity.
Defined.

End SaveModelExamples.

(** ** moving_average *)

Section EmaFacts.
Import Zero Ema.
Context {F T : Type}.
Variable one_minus : F -> F.
Variable scale : F -> T -> T.
Variable add : T -> T -> T.

Local Abbreviation blend := (blend one_minus scale add).
Local Abbreviation blend_all := (blend_all one_minus scale add).
Local Abbreviation moving_average := (moving_average one_minus scale add).
Local Abbreviation calls := (calls one_minus scale add).
Local Abbreviation state := (@state T).

Lemma ema_steps_bump s : ema_steps (bump s) = ema_steps s + 1.
Proof. unfold ema_steps, bump. simpl. by rewrite lookup_insert_eq. Qed.

(** The three ways a call can go. *)
Lemma moving_average_unfold model beta (st : state) :
  moving_average model beta st =
  let st1 := {| self := bump (self st); model_ema := model_ema st; scopes := scopes st |} in
  match pymod (ema_steps (self st) + 1) (accumulated_gradient (self st)) with
  | Raise e => (Raise e, st1)
  | Ok r =>
      if r =? 0
      then (Ok tt, {| self := bump (self st);
                      model_ema := (blend_all (stage (self st)) beta model (model_ema st)).1;
                      scopes := scopes st ++
                                (blend_all (stage (self st)) beta model (model_ema st)).2 |})
      else (Ok tt, st1)
  end.
Proof.
  unfold Ema.moving_average, mbind, modify, get. cbn [self model_ema scopes].
  fold (bump (self st)). rewrite ema_steps_bump.
  change (accumulated_gradient (bump (self st))) with (accumulated_gradient (self st)).
  change (stage (bump (self st))) with (stage (self st)).
  destruct (pymod (ema_steps (self st) + 1) (accumulated_gradient (self st))) as [r|e];
    [|done].
  destruct (r =? 0); [|done].
  by destruct (blend_all (stage (self st)) beta model (model_ema st)).
Qed.

Lemma moving_average_zero model beta (st : state) :
  accumulated_gradient (self st) = 0 ->
  moving_average model beta st
    = (Raise ZeroDivisionError,
       {| self := bump (self st); model_ema := model_ema st; scopes := scopes st |}).
Proof.
  intros Hacc. rewrite moving_average_unfold. unfold pymod. by rewrite Hacc.
Qed.

Lemma moving_average_idle model beta (st : state) :
  accumulated_gradient (self st) ≠ 0 ->
  (ema_steps (self st) + 1) mod accumulated_gradient (self st) ≠ 0 ->
  moving_average model beta st
    = (Ok tt, {| self := bump (self st); model_ema := model_ema st; scopes := scopes st |}).
Proof.
  intros Hacc Hmod. rewrite moving_average_unfold. unfold pymod.
  apply Z.eqb_neq in Hacc, Hmod. by rewrite Hacc, Hmod.
Qed.

Lemma moving_average_fires model beta (st : state) :
  accumulated_gradient (self st) ≠ 0 ->
  (ema_steps (self st) + 1) mod accumulated_gradient (self st) = 0 ->
  moving_average model beta st
    = (Ok tt, {| self := bump (self st);
                 model_ema := (blend_all (stage (self st)) beta model (model_ema st)).1;
                 scopes := scopes st ++ (blend_all (stage (self st)) beta model (model_ema st)).2 |}).
Proof.
  intros Hacc Hmod. rewrite moving_average_unfold. unfold pymod.
  apply Z.eqb_neq in Hacc. apply Z.eqb_eq in Hmod. by rewrite Hacc, Hmod.
Qed.

(** What the loop over the zipped parameters leaves at an index. *)
Lemma blend_all_trainable stg beta (model shadow : list (parameter T)) i p e :
  model !! i = Some p -> shadow !! i = Some e -> requires_grad p = true ->
  (blend_all stg beta model shadow).1 !! i = Some (blend beta p e).
Proof.
  revert shadow i. induction model as [|q model IH]; intros [|f shadow] i Hp He Hg;
    try done.
  cbn [Ema.blend_all].
  destruct (blend_all stg beta model shadow) as [rest events] eqn:Hrest.
  destruct i as [|i]; simpl in Hp, He.
  - inversion Hp; inversion He; subst. rewrite Hg.
    by destruct (negb (stg =? 3)).
  - specialize (IH shadow i Hp He Hg). rewrite Hrest in IH.
    destruct (requires_grad q); [destruct (negb (stg =? 3))|]; exact IH.
Qed.

Lemma blend_all_frozen stg beta (model shadow : list (parameter T)) i p :
  model !! i = Some p -> requires_grad p = false ->
  (blend_all stg beta model shadow).1 !! i = shadow !! i.
Proof.
  revert shadow i. induction model as [|q model IH]; intros [|f shadow] i Hp Hg;
    try done.
  cbn [Ema.blend_all].
  destruct (blend_all stg beta model shadow) as [rest events] eqn:Hrest.
  destruct i as [|i]; simpl in Hp.
  - inversion Hp; subst. by rewrite Hg.
  - specialize (IH shadow i Hp Hg). rewrite Hrest in IH.
    destruct (requires_grad q); [destruct (negb (stg =? 3))|]; exact IH.
Qed.

(** A call leaves a shadow parameter alone when its live parameter
    takes no gradient. *)
Lemma moving_average_frozen model beta (st : state) i p :
  model !! i = Some p -> requires_grad p = false ->
  model_ema (moving_average model beta st).2 !! i = model_ema st !! i.
Proof.
  intros Hp Hg.
  destruct (decide (accumulated_gradient (self st) = 0)) as [Hz|Hnz].
  - by rewrite moving_average_zero.
  - destruct (decide ((ema_steps (self st) + 1) mod accumulated_gradient (self st) = 0)).
    + rewrite moving_average_fires by done. simpl. by eapply blend_all_frozen.
    + by rewrite moving_average_idle.
Qed.

Lemma calls_frozen n model beta (st : state) i p :
  model !! i = Some p -> requires_grad p = false ->
  model_ema (calls n model beta st).2 !! i = model_ema st !! i.
Proof.
  intros Hp Hg. revert st. induction n as [|n IH]; intros st; [done|].
  cbn [Ema.calls]. unfold mbind.
  pose proof (moving_average_frozen model beta st i p Hp Hg) as H1.
  destruct (moving_average model beta st) as [[[]|e] st1]; simpl in H1.
  - by rewrite IH.
  - done.
Qed.

(** Counting up to [accumulated_gradient]: the calls before the last
    leave the shadow model alone, the last one blends. *)
Lemma calls_up_to_step k model beta (st : state) :
  0 <= ema_steps (self st) ->
  ema_steps (self st) + Z.of_nat k + 1 = accumulated_gradient (self st) ->
  exists st',
    calls (S k) model beta st = (Ok tt, st') /\
    model_ema st' = (blend_all (stage (self st)) beta model (model_ema st)).1 /\
    ema_steps (self st') = accumulated_gradient (self st).
Proof.
  revert st. induction k as [|k IH]; intros st Hpos Hsum.
  - cbn [Ema.calls]. unfold mbind.
    rewrite moving_average_fires.
    + eexists. split; [reflexivity|]. split; [done|]. simpl.
      rewrite ema_steps_bump. lia.
    + lia.
    + replace (ema_steps (self st) + 1) with (accumulated_gradient (self st)) by lia.
      apply Z_mod_same_full.
  - cbn [Ema.calls]. unfold mbind at 1.
    rewrite moving_average_idle.
    + set (st1 := {| self := bump (self st); model_ema := model_ema st; scopes := scopes st |}).
      destruct (IH st1) as (st' & Hcalls & Hshadow & Hsteps).
      * simpl. rewrite ema_steps_bump. lia.
      * simpl. rewrite ema_steps_bump. simpl accumulated_gradient. lia.
      * exists st'. split; [exact Hcalls|]. split; [exact Hshadow|]. exact Hsteps.
    + lia.
    + rewrite Z.mod_small by lia. lia.
Qed.

Hypothesis add_comm : forall t u, add t u = add u t.

(** C3.  A call whose step count, once incremented, is not a multiple
    of [accumulated_gradient] leaves the shadow model as it is (when
    [accumulated_gradient] is 0 the call raises ZeroDivisionError, and
    leaves it as it is too).  From a fresh counter, after
    [accumulated_gradient] calls with the same [beta] and live model, a
    shadow parameter that held [S], paired with a live parameter that
    takes gradients and holds [L], holds [beta * S + (1 - beta) * L].  A
    shadow parameter whose live parameter takes no gradient is the same
    after any number of calls.  [accumulated_gradient] is what
    [setup_distributed] computed, [train_batch_size //
    micro_train_batch_size // world_size], and no call changes it. *)
Theorem moving_average_every_accumulated_gradient model beta (st : state) :
  (~ (accumulated_gradient (self st) | ema_steps (self st) + 1) ->
   model_ema (moving_average model beta st).2 = model_ema st /\
   scopes (moving_average model beta st).2 = scopes st) /\
  (ema_steps (self st) = 0 -> 1 <= accumulated_gradient (self st) ->
   exists st',
     calls (Z.to_nat (accumulated_gradient (self st))) model beta st = (Ok tt, st') /\
     forall i live shadow,
       model !! i = Some live -> model_ema st !! i = Some shadow ->
       requires_grad live = true ->
       data <$> model_ema st' !! i
         = Some (add (scale beta (data shadow)) (scale (one_minus beta) (data live)))) /\
  (forall n i live,
     model !! i = Some live -> requires_grad live = false ->
     model_ema (calls n model beta st).2 !! i = model_ema st !! i) /\
  (forall ws s, setup_distributed ws s = Ok (self st) ->
     accumulated_gradient (self st)
       = train_batch_size (self st) / micro_train_batch_size (self st) / ws) /\
  accumulated_gradient (self (moving_average model beta st).2)
    = accumulated_gradient (self st).
Proof.
  split; [|split; [|split; [|split]]].
  - intros Hdiv.
    destruct (decide (accumulated_gradient (self st) = 0)) as [Hz|Hnz].
    + by rewrite moving_average_zero.
    + rewrite moving_average_idle; [done|done|].
      intros Hmod. apply Hdiv. by apply Z.mod_divide.
  - intros Hfresh Hacc.
    destruct (calls_up_to_step (Z.to_nat (accumulated_gradient (self st) - 1)) model beta st)
      as (st' & Hcalls & Hshadow & _); [lia|lia|].
    replace (S (Z.to_nat (accumulated_gradient (self st) - 1)))
      with (Z.to_nat (accumulated_gradient (self st))) in Hcalls by lia.
    exists st'. split; [exact Hcalls|].
    intros i live shadow Hlive Hsh Hg. rewrite Hshadow.
    rewrite (blend_all_trainable _ _ _ _ _ _ _ Hlive Hsh Hg). simpl.
    by rewrite add_comm.
  - intros n i live Hlive Hg. by eapply calls_frozen.
  - intros ws s. unfold setup_distributed, floordiv.
    destruct (micro_train_batch_size s =? 0); [done|].
    destruct (ws =? 0); [done|]. by intros [= <-].
  - rewrite moving_average_unfold. cbv zeta.
    destruct (pymod _ _) as [r|e]; [destruct (r =? 0)|]; reflexivity.
Qed.

End EmaFacts.

Section EmaExamples.
Import Torch Zero Ema Examples.

Lemma SFadd_comm x y : SFadd 24 128 x y = SFadd 24 128 y x.
Proof.
  destruct x as [sx|sx| |sx mx ex], y as [sy|sy| |sy my ey]; simpl;
    try reflexivity; try (by destruct sx, sy).
  by rewrite (Z.min_comm ey ex), Z.add_comm.
Qed.

(** The sum of two float32 tensors does not depend on the order. *)
Lemma add_tensors_comm t u : add_tensors t u = add_tensors u t.
Proof.
  unfold add_tensors. revert u. induction t as [|x t IH]; intros [|y u]; try done.
  simpl. by rewrite SFadd_comm, IH.
Qed.

Lemma moving_average_every_accumulated_gradient_witness :
  exists st',
    calls one_minus mul_scalar add_tensors 4 live_model beta_0_992 ema_start = (Ok tt, st') /\
    data <$> model_ema st' !! 0%nat
      = Some (add_tensors (mul_scalar beta_0_992 [f32 5; f32 6])
                          (mul_scalar (one_minus beta_0_992) [f32 1; f32 2])) /\
    model_ema st' !! 1%nat = model_ema ema_start !! 1%nat /\
    model_ema (moving_average one_minus mul_scalar add_tensors live_model beta_0_992
                 ema_start).2 = model_ema ema_start.
Proof.
  destruct (moving_average_every_accumulated_gradient one_minus mul_scalar add_tensors
              add_tensors_comm live_model beta_0_992 ema_start)
    as (Hidle & Hblend & Hfrozen & _).
  destruct Hblend as (st' & Hcalls & Hshadow); [reflexivity|simpl; lia|].
  exists st'. split; [exact Hcalls|]. split; [|split].
  - by apply (Hshadow 0%nat _ _ eq_refl eq_refl).
  - pose proof (Hfrozen 4%nat 1%nat _ eq_refl eq_refl) as H.
    change (Z.to_nat (accumulated_gradient (self ema_start))) with 4%nat in Hcalls.
    by rewrite Hcalls in H.
  - apply Hidle. intros [q Hq]. change (ema_steps (self ema_start) + 1) with 1 in Hq.
    simpl in Hq. lia.
Defined.

End EmaExamples.

(** ** float32 arithmetic *)

Section FloatFacts.
Import Torch.

(** 1 as a float32. *)
Lemma f32_one : binary_normalize 24 128 1 0 false = S754_finite false 8388608 (-23).
Proof. reflexivity. Qed.

(** Dividing a float32 by 1 gives it back. *)
Lemma SFdiv_one x :
  valid32 x = true -> SFdiv 24 128 x (S754_finite false 8388608 (-23)) = x.
Proof.
  destruct x as [s|s| |s m e]; simpl; intros Hvalid;
    rewrite ?xorb_false_r; try reflexivity.
  unfold valid32, valid_binary, bounded, canonical_mantissa in Hvalid.
  apply andb_true_iff in Hvalid as [Hcanon Hmax].
  apply Z.eqb_eq in Hcanon. apply Z.leb_le in Hmax.
  change (Z.pos (digits2_pos m)) with (Zdigits2 (Zpos m)) in Hcanon.
  unfold SFdiv_core_binary.
  change (Zdigits2 8388608) with 24.
  set (d := Zdigits2 (Zpos m)) in *.
  assert (Hd : 0 < d) by (unfold d; simpl; lia).
  unfold fexp, emin in Hcanon |- *.
  assert (He' : Z.min (Z.max (d + e - (24 + -23) - 24) (3 - 128 - 24)) (e - -23) = e
                \/ (Z.min (Z.max (d + e - (24 + -23) - 24) (3 - 128 - 24)) (e - -23) = e - 1
                    /\ d = 24)) by lia.
  destruct He' as [He'|[He' Hnormal]]; rewrite He'.
  - replace (e - -23 - e) with 23 by lia.
    rewrite Z.shiftl_mul_pow2 by lia.
    destruct (Z.div_eucl (Z.pos m * 2 ^ 23) 8388608) as [q r] eqn:Hqr.
    assert (Hq : q = Z.pos m).
    { change q with (fst (q, r)). rewrite <- Hqr.
      change (fst (Z.div_eucl (Z.pos m * 2 ^ 23) 8388608)) with (Z.pos m * 2 ^ 23 / 8388608).
      change 8388608 with (2 ^ 23). by rewrite Z.div_mul. }
    assert (Hr : r = 0).
    { change r with (snd (q, r)). rewrite <- Hqr.
      change (snd (Z.div_eucl (Z.pos m * 2 ^ 23) 8388608)) with ((Z.pos m * 2 ^ 23) mod 8388608).
      change 8388608 with (2 ^ 23). by rewrite Z.mod_mul. }
    subst q r. change (new_location 8388608 0) with loc_Exact.
    unfold binary_round_aux, shr_fexp, fexp, emin. fold d.
    replace (Z.max (d + e - 24) (3 - 128 - 24) - e) with 0 by lia.
    simpl shr. cbn [shr_m loc_of_shr_record round_nearest_even shr_record_of_loc].
    fold d. replace (Z.max (d + e - 24) (3 - 128 - 24) - e) with 0 by lia.
    simpl. apply Z.leb_le in Hmax. by rewrite Hmax.
  - replace (e - -23 - (e - 1)) with 24 by lia.
    rewrite Z.shiftl_mul_pow2 by lia.
    destruct (Z.div_eucl (Z.pos m * 2 ^ 24) 8388608) as [q r] eqn:Hqr.
    assert (Hq : q = Z.pos m~0).
    { change q with (fst (q, r)). rewrite <- Hqr.
      change (fst (Z.div_eucl (Z.pos m * 2 ^ 24) 8388608)) with (Z.pos m * 2 ^ 24 / 8388608).
      change (2 ^ 24) with (2 * 2 ^ 23). change 8388608 with (2 ^ 23).
      rewrite Z.mul_assoc, Z.div_mul by done. lia. }
    assert (Hr : r = 0).
    { change r with (snd (q, r)). rewrite <- Hqr.
      change (snd (Z.div_eucl (Z.pos m * 2 ^ 24) 8388608)) with ((Z.pos m * 2 ^ 24) mod 8388608).
      change (2 ^ 24) with (2 * 2 ^ 23). change 8388608 with (2 ^ 23).
      by rewrite Z.mul_assoc, Z.mod_mul. }
    subst q r. change (new_location 8388608 0) with loc_Exact.
    unfold binary_round_aux, shr_fexp, fexp, emin.
    assert (Hd2 : Zdigits2 (Z.pos m~0) = d + 1).
    { unfold d. simpl. lia. }
    rewrite Hd2.
    replace (Z.max (d + 1 + (e - 1) - 24) (3 - 128 - 24) - (e - 1)) with 1 by lia.
    simpl shr. cbn [shr_m loc_of_shr_record round_nearest_even shr_record_of_loc].
    replace (e - 1 + 1) with e by lia. fold d.
    replace (Z.max (d + e - 24) (3 - 128 - 24) - e) with 0 by lia.
    simpl. apply Z.leb_le in Hmax. by rewrite Hmax.
Qed.
End FloatFacts.

(** ** Rounding gives well-formed floats *)

Section Rounding.
Variables prec emax : Z.
Hypothesis prec_pos : 0 < prec.

Local Abbreviation fexp := (fexp prec emax).

Lemma Zdigits2_nonneg m : 0 <= Zdigits2 m.
Proof. destruct m; simpl; lia. Qed.

Lemma Zdigits2_log2 m : 0 < m -> Zdigits2 m = Z.log2 m + 1.
Proof.
  destruct m as [|p|p]; try lia. intros _. simpl Zdigits2.
  induction p as [p IH|p IH|]; simpl digits2_pos.
  - rewrite Pos2Z.inj_succ, IH. destruct p; simpl; lia.
  - rewrite Pos2Z.inj_succ, IH. destruct p; simpl; lia.
  - reflexivity.
Qed.

Lemma Zdigits2_div2 m : 0 <= m -> Zdigits2 (m / 2) = Z.max 0 (Zdigits2 m - 1).
Proof.
  intros Hm. destruct m as [|p|p]; try lia; [reflexivity|].
  destruct p as [p|p|].
  - assert (H : Z.pos p~1 / 2 = Z.pos p).
    { symmetry. apply Z.div_unique with 1; lia. }
    rewrite H. cbn [Zdigits2 digits2_pos]. rewrite Pos2Z.inj_succ. lia.
  - assert (H : Z.pos p~0 / 2 = Z.pos p).
    { symmetry. apply Z.div_unique with 0; lia. }
    rewrite H. cbn [Zdigits2 digits2_pos]. rewrite Pos2Z.inj_succ. lia.
  - reflexivity.
Qed.

Lemma Zdigits2_succ m : 0 <= m -> Zdigits2 m <= Zdigits2 (m + 1) <= Zdigits2 m + 1.
Proof.
  intros Hm. destruct (decide (m = 0)) as [->|Hnz]; [simpl; lia|].
  rewrite !Zdigits2_log2 by lia.
  pose proof (Z.log2_succ_le m). pose proof (Z.log2_le_mono m (m + 1)).
  unfold Z.succ in *. lia.
Qed.

Lemma shr_1_m mrs : 0 <= shr_m mrs -> shr_m (shr_1 mrs) = shr_m mrs / 2.
Proof.
  destruct mrs as [m r s]. simpl. intros Hm.
  destruct m as [|[p|p|]|p]; try lia; simpl shr_m; try reflexivity.
  - apply Z.div_unique with 1; lia.
  - apply Z.div_unique with 0; lia.
Qed.

(** What a shift to the right by [n] places does to the number of
    digits. *)
Lemma iter_shr_1_digits n mrs :
  0 <= shr_m mrs ->
  0 <= shr_m (SpecFloat.iter_pos shr_1 n mrs) /\
  Zdigits2 (shr_m (SpecFloat.iter_pos shr_1 n mrs)) = Z.max 0 (Zdigits2 (shr_m mrs) - Z.pos n).
Proof.
  assert (Hstep : forall mrs, 0 <= shr_m mrs ->
            0 <= shr_m (shr_1 mrs) /\
            Zdigits2 (shr_m (shr_1 mrs)) = Z.max 0 (Zdigits2 (shr_m mrs) - 1)).
  { intros mrs' Hm. rewrite shr_1_m by done. split.
    - by apply Z.div_pos.
    - by apply Zdigits2_div2. }
  revert mrs. induction n as [n IH|n IH|]; intros mrs Hm; simpl SpecFloat.iter_pos.
  - destruct (Hstep mrs Hm) as [H1 D1].
    destruct (IH _ H1) as [H2 D2]. destruct (IH _ H2) as [H3 D3].
    split; [done|]. rewrite D3, D2, D1. lia.
  - destruct (IH _ Hm) as [H2 D2]. destruct (IH _ H2) as [H3 D3].
    split; [done|]. rewrite D3, D2. lia.
  - by apply Hstep.
Qed.

Lemma shr_record_of_loc_m m l : shr_m (shr_record_of_loc m l) = m.
Proof. by destruct l as [|[]]. Qed.

(** After [shr_fexp] the exponent is the one the format asks for. *)
Lemma shr_fexp_canonical m e l mrs e' :
  0 < m -> e <= fexp (Zdigits2 m + e) ->
  shr_fexp prec emax m e l = (mrs, e') ->
  0 <= shr_m mrs /\ fexp (Zdigits2 (shr_m mrs) + e') = e'.
Proof.
  intros Hm Hle. unfold shr_fexp, shr.
  destruct (fexp (Zdigits2 m + e) - e) as [|n|n] eqn:Hn; try lia.
  - intros [= <- <-]. rewrite shr_record_of_loc_m. split; lia.
  - intros [= <- <-].
    destruct (iter_shr_1_digits n (shr_record_of_loc m l)) as [Hpos Hdig].
    { rewrite shr_record_of_loc_m. lia. }
    split; [done|]. rewrite Hdig, shr_record_of_loc_m.
    pose proof (Zdigits2_nonneg m).
    unfold SpecFloat.fexp, emin in *. lia.
Qed.

Lemma round_nearest_even_bounds m l :
  0 <= m -> m <= round_nearest_even m l <= m + 1.
Proof.
  intros Hm. destruct l as [|[]]; simpl; try lia. destruct (Z.even m); lia.
Qed.

(** [binary_round_aux] returns a well-formed float. *)
Lemma binary_round_aux_valid s m e l :
  0 < m -> e <= fexp (Zdigits2 m + e) ->
  valid_binary prec emax (binary_round_aux prec emax s m e l) = true.
Proof.
  intros Hm Hle. unfold binary_round_aux.
  destruct (shr_fexp prec emax m e l) as [mrs1 e1] eqn:H1.
  destruct (shr_fexp_canonical _ _ _ _ _ Hm Hle H1) as [Hpos1 Hcan1].
  set (m2 := round_nearest_even (shr_m mrs1) (loc_of_shr_record mrs1)).
  pose proof (round_nearest_even_bounds (shr_m mrs1) (loc_of_shr_record mrs1) Hpos1) as Hm2.
  fold m2 in Hm2.
  assert (Hd2 : Zdigits2 (shr_m mrs1) <= Zdigits2 m2 <= Zdigits2 (shr_m mrs1) + 1).
  { destruct (decide (m2 = shr_m mrs1)) as [->|Hne]; [lia|].
    replace m2 with (shr_m mrs1 + 1) by lia. by apply Zdigits2_succ. }
  destruct (shr_fexp prec emax m2 e1 loc_Exact) as [mrs2 e2] eqn:H2.
  assert (Hfinal : 0 <= shr_m mrs2 /\ fexp (Zdigits2 (shr_m mrs2) + e2) = e2).
  { destruct (decide (m2 = 0)) as [Hz|Hnz].
    - revert H2. rewrite Hz. unfold shr_fexp, shr.
      assert (Hs : shr_m mrs1 = 0) by lia. rewrite Hs in Hcan1.
      rewrite Hcan1, Z.sub_diag. intros [= <- <-]. by split.
    - apply (shr_fexp_canonical m2 e1 loc_Exact); [lia| |done].
      unfold SpecFloat.fexp, emin in *. lia. }
  destruct Hfinal as [Hpos2 Hcan2].
  destruct (shr_m mrs2) as [|p|p] eqn:Hp; try done.
  destruct (e2 <=? emax - prec) eqn:Hmax; [|done].
  simpl. unfold bounded, canonical_mantissa.
  change (Z.pos (digits2_pos p)) with (Zdigits2 (Z.pos p)).
  rewrite Hcan2, Z.eqb_refl, Hmax. done.
Qed.

Lemma digits2_pos_iter_xO m d :
  Z.pos (digits2_pos (Pos.iter xO m d)) = Z.pos (digits2_pos m) + Z.pos d.
Proof.
  induction d as [|d IH] using Pos.peano_ind.
  - simpl. lia.
  - rewrite Pos.iter_succ. simpl digits2_pos. lia.
Qed.

(** [binary_round] returns a well-formed float. *)
Lemma binary_round_valid s m e :
  valid_binary prec emax (binary_round prec emax s m e) = true.
Proof.
  unfold binary_round, shl_align.
  destruct (fexp (Z.pos (digits2_pos m) + e) - e) as [|d|d] eqn:Hd.
  - apply binary_round_aux_valid; [lia|]. simpl Zdigits2. lia.
  - apply binary_round_aux_valid; [lia|]. simpl Zdigits2. lia.
  - apply binary_round_aux_valid; [lia|]. simpl Zdigits2.
    rewrite digits2_pos_iter_xO.
    replace (Z.pos (digits2_pos m) + Z.pos d + fexp (Z.pos (digits2_pos m) + e))
      with (Z.pos (digits2_pos m) + e) by lia.
    lia.
Qed.

End Rounding.

(** ** all_reduce and all_gather *)

Section ReduceFacts.
Import Torch Reduce.

Lemma value_ind' (P : value -> Prop) :
  (forall x, P (Scalar x)) ->
  (forall t, P (Tensor t)) ->
  (forall items, Forall (fun kv => P kv.2) items -> P (Dict items)) ->
  forall v, P v.
Proof.
  intros HS HT HD. fix IH 1. intros [x|t|items]; [apply HS|apply HT|].
  apply HD. induction items as [|[k v] items IHitems]; constructor.
  - apply IH.
  - apply IHitems.
Qed.

Lemma leaves_Dict items :
  leaves (Dict items) = sum_list ((fun kv => leaves kv.2) <$> items).
Proof.
  simpl. induction items as [|[k v] items IH]; [done|]. simpl. by rewrite IH.
Qed.

Lemma leaves_cons k v items :
  leaves (Dict ((k, v) :: items)) = (leaves v + leaves (Dict items))%nat.
Proof. reflexivity. Qed.

Lemma data_with_Dict P Q items :
  data_with P Q (Dict items) <->
  NoDup (keys items) /\ Forall (fun kv => data_with P Q kv.2) items.
Proof.
  simpl. apply and_iff_compat_l.
  induction items as [|[k v] items IH]; [by split; [constructor|]|].
  rewrite Forall_cons. simpl. by rewrite IH.
Qed.

(** Setting a key that is not there appends it. *)
Lemma dict_set_fresh k v d :
  k ∉ keys d -> dict_set k v d = d ++ [(k, v)].
Proof.
  induction d as [|[k' v'] d IH]; intros Hk; [done|].
  simpl. unfold keys in Hk. rewrite fmap_cons in Hk. simpl in Hk.
  apply not_elem_of_cons in Hk as [Hne Hk].
  destruct (String.eqb k' k) eqn:Heq.
  - apply String.eqb_eq in Heq. congruence.
  - by rewrite IH.
Qed.

(** The loop over the items of a dict, for a function that returns on
    every item: the result holds the items' keys in order, each with
    what the function returned for its value alone, at the number of
    collective calls reached when its turn came. *)
Lemma dict_for_items (f : value -> M nat value) items ret n :
  NoDup (keys ret ++ keys items) ->
  Forall (fun kv => forall m, exists r, f kv.2 m = (Ok r, (m + leaves kv.2)%nat)) items ->
  exists rs,
    dict_for f items ret n = (Ok (ret ++ rs), (n + leaves (Dict items))%nat) /\
    keys rs = keys items /\
    forall i k x, items !! i = Some (k, x) ->
      exists r, rs !! i = Some (k, r) /\
                (f x (n + leaves (Dict (take i items)))%nat).1 = Ok r.
Proof.
  revert ret n. induction items as [|[k v] items IH]; intros ret n Hnodup Hf.
  - exists []. change (leaves (Dict [])) with 0%nat. cbn [dict_for]. unfold mret.
    rewrite app_nil_r, Nat.add_0_r. repeat split; done.
  - apply Forall_cons in Hf as [Hv Hf]. simpl in Hv.
    destruct (Hv n) as [r Hr].
    unfold keys in Hnodup. rewrite fmap_cons in Hnodup. simpl in Hnodup.
    assert (Hfresh : k ∉ keys ret).
    { apply NoDup_app in Hnodup as (_ & Hdisj & _). intros Hk.
      apply (Hdisj k Hk). by left. }
    destruct (IH (ret ++ [(k, r)]) (n + leaves v)%nat) as (rs & Hloop & Hkeys & Hitems).
    { unfold keys. rewrite fmap_app, <- app_assoc. exact Hnodup. }
    { exact Hf. }
    exists ((k, r) :: rs). split; [|split].
    + cbn [dict_for]. unfold mbind at 1. rewrite Hr, dict_set_fresh by done.
      rewrite Hloop, <- app_assoc, leaves_cons. cbn [app].
      by rewrite Nat.add_assoc.
    + unfold keys in *. rewrite !fmap_cons. simpl. by rewrite Hkeys.
    + intros [|i] k' x Hx; simpl in Hx.
      * inversion Hx; subst. exists r. split; [done|].
        cbn [take]. change (leaves (Dict [])) with 0%nat.
        by rewrite Nat.add_0_r, Hr.
      * destruct (Hitems i k' x Hx) as (r' & Hr' & Hfx).
        exists r'. split; [done|]. rewrite <- Hfx.
        cbn [take]. by rewrite leaves_cons, Nat.add_assoc.
Qed.

(** The same loop when the function is known on every item. *)
Lemma dict_for_pointwise (f : value -> M nat value) (h : value -> value) items n :
  NoDup (keys items) ->
  Forall (fun kv => forall m, f kv.2 m = (Ok (h kv.2), (m + leaves kv.2)%nat)) items ->
  dict_for f items [] n
    = (Ok ((fun kv => (kv.1, h kv.2)) <$> items), (n + leaves (Dict items))%nat).
Proof.
  intros Hnodup Hf.
  destruct (dict_for_items f items [] n) as (rs & Hloop & Hkeys & Hitems).
  { done. }
  { eapply Forall_impl; [exact Hf|]. intros kv H m. eexists. apply H. }
  rewrite Hloop. simpl. do 2 f_equal.
  apply list_eq. intros i. rewrite list_lookup_fmap.
  destruct (items !! i) as [[k x]|] eqn:Hi.
  - destruct (Hitems i k x Hi) as (r & Hr & Hfx). rewrite Hr. simpl.
    rewrite Forall_forall in Hf. rewrite (Hf (k, x)) in Hfx.
    + simpl in Hfx. by inversion Hfx.
    + eapply list_elem_of_lookup_2. exact Hi.
  - simpl. apply lookup_ge_None. apply lookup_ge_None in Hi.
    assert (length rs = length items); [|lia].
    unfold keys in Hkeys. by rewrite <- (length_fmap fst rs), Hkeys, length_fmap.
Qed.

(** A method that walks a dict with [dict_for] and makes one collective
    call at each leaf returns on all data whose leaves it accepts. *)
Lemma traverse_returns (F : value -> M nat value) (P : pyscalar -> Prop) :
  (forall items n, F (Dict items) n
     = (ret <~ dict_for F items [] ;; mret (Dict ret))%py n) ->
  (forall x n, P x -> exists r, F (Scalar x) n = (Ok r, S n)) ->
  (forall t n, exists r, F (Tensor t) n = (Ok r, S n)) ->
  forall v, data_with P (fun _ => True) v ->
  forall n, exists r, F v n = (Ok r, (n + leaves v)%nat).
Proof.
  intros HD HS HT. induction v as [x|t|items IH] using value_ind'; intros Hv n.
  - destruct (HS x n Hv) as [r Hr]. exists r. by rewrite Hr, Nat.add_1_r.
  - destruct (HT t n) as [r Hr]. exists r. by rewrite Hr, Nat.add_1_r.
  - apply data_with_Dict in Hv as [Hnodup Hitems].
    destruct (dict_for_items F items [] n) as (rs & Hloop & _).
    { done. }
    { rewrite Forall_forall in IH, Hitems |- *. intros kv Hkv m. by apply IH, Hitems. }
    exists (Dict rs). rewrite HD. unfold mbind. by rewrite Hloop.
Qed.

(** When it is known at the leaves, it is known everywhere. *)
Lemma traverse_pointwise (F : value -> M nat value) (P : pyscalar -> Prop)
    (Q : tensor -> Prop) (f : pyscalar -> value) (h : tensor -> value) :
  (forall items n, F (Dict items) n
     = (ret <~ dict_for F items [] ;; mret (Dict ret))%py n) ->
  (forall x n, P x -> F (Scalar x) n = (Ok (f x), S n)) ->
  (forall t n, Q t -> F (Tensor t) n = (Ok (h t), S n)) ->
  forall v, data_with P Q v ->
  forall n, F v n = (Ok (map_leaves f h v), (n + leaves v)%nat).
Proof.
  intros HD HS HT. induction v as [x|t|items IH] using value_ind'; intros Hv n.
  - by rewrite HS, Nat.add_1_r.
  - by rewrite HT, Nat.add_1_r.
  - apply data_with_Dict in Hv as [Hnodup Hitems].
    rewrite HD. unfold mbind.
    rewrite (dict_for_pointwise F (map_leaves f h)); [done|done|].
    rewrite Forall_forall in IH, Hitems |- *. intros kv Hkv m. by apply IH, Hitems.
Qed.

(** *** The leaves of [all_reduce] *)

Lemma all_reduce_Dict g op items n :
  valid_op op = true ->
  all_reduce g op (Dict items) n
    = (ret <~ dict_for (all_reduce g op) items [] ;; mret (Dict ret))%py n.
Proof. intros Hop. simpl. by rewrite Hop. Qed.

Lemma all_reduce_Tensor g op t n :
  valid_op op = true ->
  all_reduce g op (Tensor t) n = (Ok (Tensor (reduce_buffer g op n t)), S n).
Proof.
  intros Hop. simpl. by rewrite Hop.
Qed.

Lemma all_reduce_Scalar g op x t n :
  valid_op op = true -> Tensor1 x = Ok t ->
  all_reduce g op (Scalar x) n
    = (match item (reduce_buffer g op n t) with
       | Ok y => Ok (Scalar y)
       | Raise e => Raise e
       end, S n).
Proof.
  intros Hop Ht. simpl. rewrite Hop, Ht. simpl. unfold mbind, collective.
  by destruct (item (reduce_buffer g op n t)).
Qed.

Lemma Tensor1_converts x :
  converts x -> Tensor1 x = Ok {| device_type := cpu; elems := [as_float32 x] |}.
Proof.
  intros [t Ht]. destruct x as [z|f]; [|done].
  simpl in *. unfold float_of_int in *.
  by destruct (binary_normalize 53 1024 z 0 false).
Qed.

Lemma length_reduce_buffer g op n t :
  length (elems (reduce_buffer g op n t)) = length (elems t).
Proof.
  unfold reduce_buffer.
  destruct (is_cpu (device_type t)), (String.eqb op "mean"); simpl;
    by rewrite length_imap, ?length_fmap.
Qed.

(** The reduced buffer of a number has one element. *)
Lemma item_reduce_buffer g op n x :
  exists e, elems (reduce_buffer g op n {| device_type := cpu; elems := [x] |}) = [e] /\
            item (reduce_buffer g op n {| device_type := cpu; elems := [x] |})
              = Ok (PyFloat (to_float64 e)).
Proof.
  pose proof (length_reduce_buffer g op n {| device_type := cpu; elems := [x] |}) as Hlen.
  unfold item.
  destruct (elems (reduce_buffer g op n {| device_type := cpu; elems := [x] |}))
    as [|e [|]]; try done.
  by exists e.
Qed.

(** C9.  For a number that [torch.Tensor] accepts, [all_reduce] returns
    a Python float: the [item()] of the reduced buffer of one element.
    An int does not come back as an int. *)
Theorem all_reduce_scalar_is_float g op x n :
  valid_op op = true -> converts x ->
  exists t f,
    Tensor1 x = Ok t /\
    item (reduce_buffer g op n t) = Ok (PyFloat f) /\
    all_reduce g op (Scalar x) n = (Ok (Scalar (PyFloat f)), S n) /\
    forall z, x = PyInt z -> Scalar (PyFloat f) ≠ Scalar x.
Proof.
  intros Hop Hx. pose proof (Tensor1_converts x Hx) as Ht.
  destruct (item_reduce_buffer g op n (as_float32 x)) as (e & _ & Hitem).
  eexists _, (to_float64 e). split; [exact Ht|]. split; [exact Hitem|]. split.
  - by rewrite (all_reduce_Scalar g op x _ n Hop Ht), Hitem.
  - by intros z ->.
Qed.

End ReduceFacts.

Section ReduceClaims.
Import Torch Reduce.

Lemma to_float32_valid x : valid32 (to_float32 x) = true.
Proof.
  destruct x as [s|s| |s m e]; try done. by apply binary_round_valid.
Qed.

Lemma as_float32_valid x : valid32 (as_float32 x) = true.
Proof. destruct x; apply to_float32_valid. Qed.

Lemma imap_same {A} (l : list A) : imap (fun _ x => x) l = l.
Proof. induction l as [|x l IH]; [done|]. simpl. f_equal. exact IH. Qed.

(** *** A group of one process *)

Lemma contributions_solo g n i x :
  world_size g = 1%nat -> get_rank g = 0%nat -> contributions g n i x = [x].
Proof. unfold contributions. by intros -> ->. Qed.

Lemma dist_all_reduce_solo g o n t :
  world_size g = 1%nat -> get_rank g = 0%nat -> dist_all_reduce g o n t = t.
Proof.
  intros Hws Hrank. destruct t as [d els]. unfold dist_all_reduce. simpl. f_equal.
  rewrite (imap_ext _ (fun _ x => x)); [apply imap_same|].
  intros i x _. by rewrite contributions_solo.
Qed.

Lemma div_scalar_one t : valid_tensor t -> div_scalar t 1 = t.
Proof.
  destruct t as [d els]. unfold valid_tensor, div_scalar. cbn [elems device_type].
  intros Hvalid. rewrite f32_one. f_equal.
  induction Hvalid as [|x els Hx _ IH]; [done|].
  rewrite fmap_cons, IH. f_equal. by apply SFdiv_one.
Qed.

Lemma reduce_buffer_solo g op n t :
  world_size g = 1%nat -> get_rank g = 0%nat -> valid_tensor t ->
  reduce_buffer g op n t = t.
Proof.
  intros Hws Hrank Hvalid. unfold reduce_buffer. rewrite Hws.
  rewrite dist_all_reduce_solo by done.
  assert (Hdiv : forall u, valid_tensor u ->
            (if String.eqb op "mean" then div_scalar u (Z.of_nat 1) else u) = u).
  { intros u Hu. destruct (String.eqb op "mean"); [|done]. by apply div_scalar_one. }
  destruct t as [[] els]; simpl; by rewrite Hdiv.
Qed.

Lemma all_reduce_solo g op v n :
  valid_op op = true -> world_size g = 1%nat -> get_rank g = 0%nat ->
  data_with converts valid_tensor v ->
  all_reduce g op v n = (Ok (map_leaves demoted Tensor v), (n + leaves v)%nat).
Proof.
  intros Hop Hws Hrank Hv. revert v Hv n.
  apply (traverse_pointwise (all_reduce g op) converts valid_tensor).
  - intros items n. by apply all_reduce_Dict.
  - intros x n Hx.
    rewrite (all_reduce_Scalar g op x _ n Hop (Tensor1_converts x Hx)).
    rewrite reduce_buffer_solo; [done|done|done|].
    constructor; [apply as_float32_valid|constructor].
  - intros t n Ht. by rewrite all_reduce_Tensor, reduce_buffer_solo.
Qed.

Lemma all_reduce_returns g op v n :
  valid_op op = true -> data_with converts (fun _ => True) v ->
  exists r, all_reduce g op v n = (Ok r, (n + leaves v)%nat).
Proof.
  intros Hop Hv. revert v Hv n.
  apply (traverse_returns (all_reduce g op) converts).
  - intros items n. by apply all_reduce_Dict.
  - intros x n Hx.
    destruct (item_reduce_buffer g op n (as_float32 x)) as (e & _ & Hitem).
    eexists. by rewrite (all_reduce_Scalar g op x _ n Hop (Tensor1_converts x Hx)), Hitem.
  - intros t n. eexists. by apply all_reduce_Tensor.
Qed.

(** C4, as the code has it.  For [op] among mean, max and sum and a
    dict whose numbers [torch.Tensor] accepts, [all_reduce] returns a
    dict with the same keys in the same order; the value under a key is
    what [all_reduce] returns for that key's value alone, at the
    collective calls that come after those of the items before it.  In
    a group of one process, for all three [op], a tensor of float32
    values comes back as it is, and a number comes back as the Python
    float of the float32 nearest to it, which is the number itself only
    when a float32 can hold it. *)
Theorem all_reduce_dict g op items n :
  valid_op op = true ->
  data_with converts (fun _ => True) (Dict items) ->
  exists items',
    all_reduce g op (Dict items) n = (Ok (Dict items'), (n + leaves (Dict items))%nat) /\
    keys items' = keys items /\
    (forall i k x, items !! i = Some (k, x) ->
       exists r, items' !! i = Some (k, r) /\
                 (all_reduce g op x (n + leaves (Dict (take i items)))%nat).1 = Ok r) /\
    (world_size g = 1%nat -> get_rank g = 0%nat ->
     data_with converts valid_tensor (Dict items) ->
     Dict items' = map_leaves demoted Tensor (Dict items)).
Proof.
  intros Hop Hdata. pose proof Hdata as [Hnodup Hitems]%data_with_Dict.
  destruct (dict_for_items (all_reduce g op) items [] n) as (rs & Hloop & Hkeys & Hrs).
  { done. }
  { rewrite Forall_forall in Hitems |- *. intros kv Hkv m.
    by apply all_reduce_returns, Hitems. }
  exists rs. rewrite all_reduce_Dict by done. unfold mbind. rewrite Hloop.
  repeat split; try done.
  intros Hws Hrank Hvalid.
  pose proof (all_reduce_solo g op (Dict items) n Hop Hws Hrank Hvalid) as Hsolo.
  rewrite all_reduce_Dict in Hsolo by done. unfold mbind in Hsolo.
  rewrite Hloop in Hsolo. by inversion Hsolo.
Qed.

(** *** The leaves of [all_gather] *)

Lemma all_gather_Tensor g t n :
  all_gather g (Tensor t) n = (Ok (Tensor (gather_buffer g n t)), S n).
Proof. reflexivity. Qed.

Lemma all_gather_Scalar g x t n :
  Tensor1 x = Ok t ->
  all_gather g (Scalar x) n = (Ok (Tensor (gather_buffer g n t)), S n).
Proof. intros Ht. simpl. by rewrite Ht. Qed.

Lemma gather_buffer_solo g n t :
  world_size g = 1%nat -> get_rank g = 0%nat -> gather_buffer g n t = t.
Proof.
  intros Hws Hrank. unfold gather_buffer, dist_all_gather, cat. rewrite Hws, Hrank.
  destruct t as [[] els]; simpl; by rewrite imap_same, app_nil_r.
Qed.

Lemma all_gather_solo g v n :
  world_size g = 1%nat -> get_rank g = 0%nat ->
  data_with converts (fun _ => True) v ->
  all_gather g v n = (Ok (map_leaves promoted Tensor v), (n + leaves v)%nat).
Proof.
  intros Hws Hrank Hv. revert v Hv n.
  apply (traverse_pointwise (all_gather g) converts (fun _ => True)).
  - done.
  - intros x n Hx.
    rewrite (all_gather_Scalar g x _ n (Tensor1_converts x Hx)).
    by rewrite gather_buffer_solo.
  - intros t n _. by rewrite all_gather_Tensor, gather_buffer_solo.
Qed.

Lemma concat_singletons {A B} (f : A -> B) (l : list A) :
  concat ((fun a => [f a]) <$> l) = f <$> l.
Proof.
  induction l as [|a l IH]; [done|]. rewrite !fmap_cons. cbn [concat app]. by rewrite IH.
Qed.

(** C5, as the code has it.  [all_gather] keeps the keys of a dict in
    order.  In a group of one process it returns every tensor as it is,
    and every number as a float32 tensor of one element.  In a group of
    [N] processes where process [i] contributes the number [i], every
    process gets the float32 tensor of 0, 1, ..., [N - 1], rank 0
    first. *)
Theorem all_gather_in_rank_order g n :
  (forall items, data_with converts (fun _ => True) (Dict items) ->
     exists items',
       all_gather g (Dict items) n = (Ok (Dict items'), (n + leaves (Dict items))%nat) /\
       keys items' = keys items) /\
  (world_size g = 1%nat -> get_rank g = 0%nat ->
   forall v, data_with converts (fun _ => True) v ->
     all_gather g v n = (Ok (map_leaves promoted Tensor v), (n + leaves v)%nat)) /\
  (converts (PyInt (Z.of_nat (get_rank g))) ->
   (forall i, (i < world_size g)%nat -> i ≠ get_rank g -> peer g n i 0%nat = f32_of_rank i) ->
   all_gather g (Scalar (PyInt (Z.of_nat (get_rank g)))) n
     = (Ok (Tensor {| device_type := cpu;
                      elems := f32_of_rank <$> seq 0 (world_size g) |}), S n)).
Proof.
  split; [|split].
  - intros items Hdata. pose proof Hdata as [Hnodup Hitems]%data_with_Dict.
    destruct (dict_for_items (all_gather g) items [] n) as (rs & Hloop & Hkeys & _).
    { done. }
    { rewrite Forall_forall in Hitems |- *. intros kv Hkv m.
      apply (traverse_returns (all_gather g) converts); try done.
      - intros x n' Hx. eexists. by apply all_gather_Scalar, Tensor1_converts.
      - intros t n'. by eexists.
      - by apply Hitems. }
    exists rs. simpl. unfold mbind. by rewrite Hloop.
  - intros Hws Hrank v Hv. by apply all_gather_solo.
  - intros Hconv Hpeers.
    rewrite (all_gather_Scalar g _ _ n (Tensor1_converts _ Hconv)).
    unfold gather_buffer, dist_all_gather, cat.
    cbn [device_type is_cpu to elems imap].
    rewrite <- list_fmap_compose, <- (concat_singletons f32_of_rank).
    unfold to. cbn [elems device_type].
    apply (f_equal (fun l => (Ok (Tensor {| device_type := cpu; elems := concat l |}), S n))).
    apply list_fmap_ext. intros j i Hi. cbn [compose elems]. f_equal.
    apply lookup_seq in Hi as [-> Hlt]. simpl.
    destruct (Nat.eqb_spec j (get_rank g)) as [->|Hne]; [done|].
    by apply Hpeers.
Qed.

End ReduceClaims.

Section ReduceExamples.
Import Torch Reduce Examples.

Lemma metrics_data : data_with converts (fun _ => True) (Dict metrics).
Proof.
  split.
  - apply NoDup_ListNoDup. repeat constructor; simpl; intuition discriminate.
  - repeat split. by eexists.
Qed.

Lemma all_reduce_dict_witness :
  exists items',
    all_reduce solo "mean" (Dict metrics) 0%nat = (Ok (Dict items'), 2%nat) /\
    keys items' = ["loss"; "reward"]%string /\
    Dict items' = map_leaves demoted Tensor (Dict metrics).
Proof.
  destruct (all_reduce_dict solo "mean" metrics 0%nat) as (items' & Hret & Hkeys & _ & Hsolo).
  - reflexivity.
  - exact metrics_data.
  - exists items'. split; [exact Hret|]. split; [exact Hkeys|].
    apply Hsolo; [reflexivity|reflexivity|].
    split; [apply metrics_data|]. repeat split; [by eexists|].
    by repeat constructor.
Defined.

(** C4, as it is stated, fails in a group of one process: a loss of
    0.1 comes back from [all_reduce], for each of the three [op], as
    the float32 nearest to 0.1, which is greater than 0.1. *)
Lemma all_reduce_rounds_to_float32 :
  let M := Dict [("loss"%string, Scalar (PyFloat f64_0_1))] in
  let R := Dict [("loss"%string, Scalar (PyFloat f64_0_1_as_f32))] in
  (all_reduce solo "mean" M 0%nat).1 = Ok R /\
  (all_reduce solo "sum" M 0%nat).1 = Ok R /\
  (all_reduce solo "max" M 0%nat).1 = Ok R /\
  SFcompare f64_0_1_as_f32 f64_0_1 = Some Gt /\
  R ≠ M.
Proof. repeat split; try reflexivity. discriminate. Qed.

Lemma all_reduce_scalar_is_float_witness :
  exists t f,
    Tensor1 (PyInt 2) = Ok t /\
    item (reduce_buffer (ranks 4 2) "sum" 0 t) = Ok (PyFloat f) /\
    all_reduce (ranks 4 2) "sum" (Scalar (PyInt 2)) 0%nat = (Ok (Scalar (PyFloat f)), 1%nat) /\
    forall z, PyInt 2 = PyInt z -> Scalar (PyFloat f) ≠ Scalar (PyInt 2).
Proof.
  apply (all_reduce_scalar_is_float (ranks 4 2) "sum" (PyInt 2) 0%nat).
  - reflexivity.
  - by eexists.
Defined.

Lemma all_gather_in_rank_order_witness :
  all_gather (ranks 4 2) (Scalar (PyInt 2)) 0%nat
    = (Ok (Tensor {| device_type := cpu; elems := [f32 0; f32 1; f32 2; f32 3] |}), 1%nat) /\
  all_gather solo (Dict metrics) 0%nat
    = (Ok (map_leaves promoted Tensor (Dict metrics)), 2%nat).
Proof.
  destruct (all_gather_in_rank_order (ranks 4 2) 0%nat) as (_ & _ & Hranks).
  destruct (all_gather_in_rank_order solo 0%nat) as (_ & Hsolo & _).
  split.
  - apply Hranks; [by eexists|done].
  - apply Hsolo; [done|done|exact metrics_data].
Defined.

(** C5, as it is stated, fails in a group of one process: a loss of
    0.1 comes back from [all_gather] as a tensor, whose one element is
    the float32 nearest to 0.1. *)
Lemma all_gather_returns_a_tensor :
  all_gather solo (Scalar (PyFloat f64_0_1)) 0%nat
    = (Ok (Tensor {| device_type := cpu; elems := [S754_finite false 13421773 (-27)] |}),
       1%nat) /\
  to_float64 (S754_finite false 13421773 (-27)) = f64_0_1_as_f32 /\
  Tensor {| device_type := cpu; elems := [S754_finite false 13421773 (-27)] |}
    ≠ Scalar (PyFloat f64_0_1).
Proof. repeat split; try reflexivity. discriminate. Qed.

End ReduceExamples.

(** * Further properties *)

(** ** The retention sweep, continued *)

Section CkptMore.
Import Ckpt Examples.

Lemma subdirs_rmtree_subset p q mt (save_dir : listing) :
  (q, mt) ∈ subdirs (rmtree p save_dir) -> (q, mt) ∈ subdirs save_dir.
Proof.
  rewrite !elem_of_subdirs. intros [es Hin]. exists es.
  unfold rmtree in Hin. by apply list_elem_of_filter in Hin as [_ Hin].
Qed.

Lemma subdirs_rmtree_all_subset deleted q mt (save_dir : listing) :
  (q, mt) ∈ subdirs (foldl (fun d p => rmtree p d) save_dir deleted) ->
  (q, mt) ∈ subdirs save_dir.
Proof.
  revert save_dir. induction deleted as [|p deleted IH]; intros save_dir; [done|].
  simpl. intros Hin. apply IH in Hin. by eapply subdirs_rmtree_subset.
Qed.

Lemma oldest_first_newest_kept deleted (save_dir : listing) p :
  oldest_first save_dir deleted -> p ∈ deleted ->
  exists mt, (p, mt) ∈ subdirs save_dir /\
    forall q mt', (q, mt') ∈ subdirs (foldl (fun d p => rmtree p d) save_dir deleted) ->
                  mt <= mt'.
Proof.
  revert save_dir. induction deleted as [|p0 deleted IH]; intros save_dir Hold Hp.
  - by apply elem_of_nil in Hp.
  - destruct Hold as [(mt0 & Hin0 & Hmin0) Hrest]. simpl.
    apply elem_of_cons in Hp as [->|Hp].
    + exists mt0. split; [done|]. intros q mt' Hq.
      apply (Hmin0 q). eapply subdirs_rmtree_subset.
      by eapply subdirs_rmtree_all_subset.
    + destruct (IH _ Hrest Hp) as (mt & Hin & Hmin).
      exists mt. split; [by eapply subdirs_rmtree_subset|done].
Qed.

(** X1.  The sweep keeps the most recent checkpoints: a directory it has
    deleted was not younger than any subdirectory it has kept. *)
Theorem sweep_keeps_the_newest fuel max_num max_size (save_dir kept : listing) printed :
  sweep fuel max_num max_size save_dir [] = Some (Ok (kept, printed)) ->
  forall p, p ∈ printed ->
  exists mt, (p, mt) ∈ subdirs save_dir /\
             forall q mt', (q, mt') ∈ subdirs kept -> mt <= mt'.
Proof.
  intros Hs p Hp.
  apply sweep_stopped in Hs as (deleted & -> & -> & Hold & _). simpl in Hp.
  by apply oldest_first_newest_kept.
Qed.

Lemma sweep_keeps_the_newest_witness :
  sweep 4 10 (MAX_SIZE 50) four_ckpts []
    = Some (Ok ([ckpt "d" 4 40], ["a"; "b"; "c"]%string)) /\
  forall p, p ∈ ["a"; "b"; "c"]%string ->
  exists mt, (p, mt) ∈ subdirs four_ckpts /\
             forall q mt', (q, mt') ∈ subdirs [ckpt "d" 4 40] -> mt <= mt'.
Proof.
  split; [reflexivity|].
  apply (sweep_keeps_the_newest 4 10 (MAX_SIZE 50) four_ckpts [ckpt "d" 4 40]).
  reflexivity.
Defined.

Lemma node_ind' (P : node -> Prop) :
  (forall sz, P (File sz)) ->
  (forall mt es, Forall (fun e => P e.2) es -> P (Folder mt es)) ->
  forall n, P n.
Proof.
  intros HF HD. fix IH 1. intros [sz|mt es]; [apply HF|]. apply HD.
  induction es as [|[d n] es IHes]; constructor; [apply IH|apply IHes].
Qed.

Lemma walk_size_nonneg n : 0 <= walk_size n.
Proof.
  induction n as [sz|mt es IH] using node_ind'; simpl; [lia|].
  induction IH as [|[d n] es Hn _ IHes]; simpl in *; lia.
Qed.

Lemma total_size_from acc (save_dir : listing) sd :
  foldl (fun acc e => acc + match find_entry e.1 save_dir with
                            | Some n => walk_size n
                            | None => 0
                            end) acc sd
  = acc + total_size save_dir sd.
Proof.
  unfold total_size. revert acc. induction sd as [|e sd IH]; intros acc; simpl; [lia|].
  rewrite IH, (IH (0 + _)). lia.
Qed.

Lemma total_size_cons (save_dir : listing) e sd :
  total_size save_dir (e :: sd)
  = match find_entry e.1 save_dir with Some n => walk_size n | None => 0 end
    + total_size save_dir sd.
Proof. unfold total_size at 1. simpl. by rewrite total_size_from. Qed.

Lemma total_size_nonneg (save_dir : listing) sd : 0 <= total_size save_dir sd.
Proof.
  induction sd as [|e sd IH]; [done|]. rewrite total_size_cons.
  destruct (find_entry e.1 save_dir) as [n|]; [pose proof (walk_size_nonneg n)|]; lia.
Qed.

(** X2.  When nothing may be kept the save does not happen: with [max_num]
    at most 0, or [max_mem] below 0, [save_ckpt] on the primary process
    deletes subdirectories until none is left and then raises
    IndexError, whatever the model and whatever [save_dir] holds. *)
Theorem save_ckpt_without_room fuel m (save_dir : listing) tag max_num max_mem :
  (length save_dir < fuel)%nat ->
  max_num <= 0 \/ max_mem < 0 ->
  save_ckpt fuel true m save_dir tag max_num max_mem = Some (Raise IndexError).
Proof.
  intros Hfuel Hroom. unfold save_ckpt.
  assert (Hsweep : forall printed,
            sweep fuel max_num (MAX_SIZE max_mem) save_dir printed = Some (Raise IndexError)).
  { pose proof (length_subdirs save_dir) as Hlen.
    assert (Hf : (length (subdirs save_dir) < fuel)%nat) by lia.
    clear Hfuel Hlen. revert save_dir Hf.
    induction fuel as [|fuel IH]; intros save_dir Hf printed; [lia|].
    simpl.
    assert (Hc : (Z.of_nat (length (sort_by_mtime (subdirs save_dir))) >=? max_num)
                 || (total_size save_dir (sort_by_mtime (subdirs save_dir))
                       >? MAX_SIZE max_mem) = true).
    { apply orb_true_iff. destruct Hroom as [Hn|Hm]; [left|right].
      - apply Z.geb_le. lia.
      - apply Z.gtb_lt.
        pose proof (total_size_nonneg save_dir (sort_by_mtime (subdirs save_dir))).
        unfold MAX_SIZE. lia. }
    rewrite Hc.
    destruct (sort_by_mtime (subdirs save_dir)) as [|[p mt] rest] eqn:Hs; [done|].
    apply sort_first_is_oldest in Hs as [Hin _].
    rewrite (subdir_exists _ _ _ Hin).
    apply IH. apply length_subdirs_rmtree in Hin. lia. }
  by rewrite Hsweep.
Qed.

Lemma save_ckpt_without_room_witness :
  save_ckpt 5 true (engine_writing 1) four_ckpts "global_step5" 0 1000
    = Some (Raise IndexError).
Proof.
  apply (save_ckpt_without_room 5 (engine_writing 1) four_ckpts "global_step5" 0 1000).
  - simpl. lia.
  - left. lia.
Defined.

Lemma elem_of_rmtree_all deleted (save_dir : listing) e :
  e ∈ foldl (fun d p => rmtree p d) save_dir deleted <-> e ∈ save_dir /\ e.1 ∉ deleted.
Proof.
  revert save_dir. induction deleted as [|p deleted IH]; intros save_dir; simpl.
  - split; [intros H; split; [done|apply not_elem_of_nil]|by intros [H _]].
  - rewrite IH. unfold rmtree. rewrite list_elem_of_filter, not_elem_of_cons.
    split; [intros [[??]?]|intros [?[??]]]; repeat split; done.
Qed.

Lemma name_unique (l : listing) d n n' :
  NoDup l.*1 -> (d, n) ∈ l -> (d, n') ∈ l -> n = n'.
Proof.
  induction l as [|[d0 n0] l IH]; intros Hnd H1 H2.
  - by apply elem_of_nil in H1.
  - rewrite fmap_cons in Hnd. apply NoDup_cons in Hnd as [Hnotin Hnd]. simpl in Hnotin.
    apply elem_of_cons in H1 as [H1|H1], H2 as [H2|H2].
    + congruence.
    + inversion H1; subst. destruct Hnotin. apply list_elem_of_fmap. by exists (d0, n').
    + inversion H2; subst. destruct Hnotin. apply list_elem_of_fmap. by exists (d0, n).
    + by apply IH.
Qed.

(** X3.  The sweep only takes subdirectories away.  What it leaves is what
    [save_dir] held, without the entries named in what it has printed;
    every name printed is that of a subdirectory of [save_dir]; so, the
    names in [save_dir] being distinct, every plain file stays. *)
Theorem sweep_deletes_only_subdirectories fuel max_num max_size (save_dir kept : listing)
    printed :
  sweep fuel max_num max_size save_dir [] = Some (Ok (kept, printed)) ->
  (forall e, e ∈ kept <-> e ∈ save_dir /\ e.1 ∉ printed) /\
  (forall p, p ∈ printed -> exists mt, (p, mt) ∈ subdirs save_dir) /\
  (NoDup save_dir.*1 -> forall d sz, (d, File sz) ∈ save_dir -> (d, File sz) ∈ kept).
Proof.
  intros Hs.
  apply sweep_stopped in Hs as (deleted & -> & -> & Hold & _). simpl.
  assert (Hsub : forall p, p ∈ deleted -> exists mt, (p, mt) ∈ subdirs save_dir).
  { intros p Hp. destruct (oldest_first_newest_kept _ _ _ Hold Hp) as (mt & Hin & _).
    by exists mt. }
  split; [|split].
  - intros e. apply elem_of_rmtree_all.
  - exact Hsub.
  - intros Hnd d sz Hfile. apply elem_of_rmtree_all. split; [done|].
    simpl. intros Hd. destruct (Hsub d Hd) as [mt [es Hdir]%elem_of_subdirs].
    by pose proof (name_unique _ _ _ _ Hnd Hfile Hdir).
Qed.

Lemma sweep_deletes_only_subdirectories_witness :
  (forall e, e ∈ [("latest"%string, File 12); ckpt "d" 4 40]
             <-> e ∈ with_latest /\ e.1 ∉ ["a"; "b"; "c"]%string) /\
  (forall p, p ∈ ["a"; "b"; "c"]%string -> exists mt, (p, mt) ∈ subdirs with_latest) /\
  (NoDup with_latest.*1 -> forall d sz,
     (d, File sz) ∈ with_latest -> (d, File sz) ∈ [("latest"%string, File 12); ckpt "d" 4 40]).
Proof.
  apply (sweep_deletes_only_subdirectories 4 10 (MAX_SIZE 50) with_latest).
  reflexivity.
Defined.

Lemma NoDup_rmtree p (save_dir : listing) :
  NoDup save_dir.*1 -> NoDup (rmtree p save_dir).*1.
Proof.
  intros Hnd. eapply sublist_NoDup; [exact Hnd|].
  apply fmap_sublist. unfold rmtree. apply sublist_filter.
Qed.

Lemma NoDup_rmtree_all deleted (save_dir : listing) :
  NoDup save_dir.*1 -> NoDup (foldl (fun d p => rmtree p d) save_dir deleted).*1.
Proof.
  revert save_dir. induction deleted as [|p deleted IH]; intros save_dir Hnd; [done|].
  simpl. by apply IH, NoDup_rmtree.
Qed.

Lemma total_size_ext (d1 d2 : listing) sd :
  (forall e, e ∈ sd -> find_entry e.1 d1 = find_entry e.1 d2) ->
  total_size d1 sd = total_size d2 sd.
Proof.
  induction sd as [|e sd IH]; intros Hext; [done|].
  rewrite !total_size_cons, Hext, IH; [done| |by left].
  intros e' He'. apply Hext. by right.
Qed.

Lemma find_entry_app_l q (l1 l2 : listing) :
  is_Some (find_entry q l1) -> find_entry q (l1 ++ l2) = find_entry q l1.
Proof.
  induction l1 as [|[d n] l1 IH]; simpl; [by intros [? ?]|].
  destruct (String.eqb d q); [done|apply IH].
Qed.

Lemma find_entry_elem_of q n (l : listing) :
  find_entry q l = Some n -> (q, n) ∈ l.
Proof.
  induction l as [|[d n'] l IH]; simpl; [done|].
  destruct (String.eqb d q) eqn:Hd.
  - apply String.eqb_eq in Hd. intros [= ->]. subst. by left.
  - intros H. right. by apply IH.
Qed.

(** [torch.save] of a file leaves the subdirectories and their sizes as
    they were. *)
Lemma torch_save_subdirs p size (save_dir written : listing) :
  NoDup save_dir.*1 ->
  torch_save p size save_dir = Ok written ->
  subdirs written = subdirs save_dir /\
  forall q mt, (q, mt) ∈ subdirs save_dir -> find_entry q written = find_entry q save_dir.
Proof.
  intros Hnd. unfold torch_save.
  destruct (find_entry p save_dir) as [[sz|mt es]|] eqn:Hfind; [| done |].
  - intros [= <-]. apply find_entry_elem_of in Hfind.
    assert (Hfiles : forall n, (p, n) ∈ save_dir -> n = File sz).
    { intros n Hn. by eapply name_unique. }
    clear Hfind Hnd.
    set (f := fun e : string * node => if String.eqb e.1 p then (e.1, File size) else e).
    split.
    + induction save_dir as [|[d n] l IH]; [done|].
      rewrite fmap_cons. unfold f at 1. cbn [fst]. destruct (String.eqb d p) eqn:Hd.
      * apply String.eqb_eq in Hd. subst d.
        rewrite (Hfiles n) by (by left). rewrite !subdirs_cons. apply IH.
        intros n' Hn'. apply Hfiles. by right.
      * rewrite !subdirs_cons, IH; [done|]. intros n' Hn'. apply Hfiles. by right.
    + intros q mt [es Hq]%elem_of_subdirs.
      assert (Hne : q ≠ p).
      { intros ->. by pose proof (Hfiles _ Hq). }
      clear Hq Hfiles. induction save_dir as [|[d n] l IH]; [done|].
      rewrite fmap_cons. unfold f at 1. cbn [fst].
      destruct (String.eqb d p) eqn:Hd; cbn [find_entry].
      * apply String.eqb_eq in Hd. subst d.
        apply String.eqb_neq in Hne. rewrite String.eqb_sym in Hne. by rewrite Hne.
      * by rewrite IH.
  - intros [= <-]. split.
    + unfold subdirs. by rewrite omap_app, app_nil_r.
    + intros q mt [es Hq]%elem_of_subdirs. apply find_entry_app_l.
      by eapply find_entry_is_Some.
Qed.

(** X4.  A model that is not an engine is saved as the file [tag.pt] beside
    the checkpoint directories: in that case, the names in [save_dir]
    being distinct, the call ends with the subdirectories the sweep has
    kept, fewer than [max_num] and within the size budget. *)
Theorem save_ckpt_of_a_module_keeps_bounds fuel size (save_dir root' : listing) tag
    max_num max_mem printed :
  NoDup save_dir.*1 ->
  save_ckpt fuel true (TorchModule size) save_dir tag max_num max_mem
    = Some (Ok (root', printed)) ->
  subdirs root' = subdirs (foldl (fun d p => rmtree p d) save_dir printed) /\
  count root' < max_num /\
  bytes root' <= MAX_SIZE max_mem /\
  find_entry (tag +:+ ".pt") root' = Some (File size).
Proof.
  intros Hnd. unfold save_ckpt.
  destruct (sweep fuel max_num (MAX_SIZE max_mem) save_dir []) as [[[kept printed']|e]|]
    eqn:Hs; simpl; try done.
  destruct (torch_save (tag +:+ ".pt") size kept) as [written|e] eqn:Hw; [|done].
  intros [= <- <-].
  apply sweep_stopped in Hs as (deleted & -> & Hkept & _ & Hcount & Hbytes).
  simpl. rewrite <- Hkept.
  destruct (torch_save_subdirs _ _ _ _ (eq_ind_r (fun k => NoDup k.*1)
              (NoDup_rmtree_all deleted save_dir Hnd) Hkept) Hw) as [Hsub Hfind].
  split; [done|]. split; [by unfold count; rewrite Hsub|]. split.
  - unfold bytes. rewrite Hsub.
    rewrite (total_size_ext written kept); [done|].
    intros [q mt] Hq. apply (Hfind q mt). by apply elem_of_sort_by_mtime.
  - clear Hsub Hfind Hcount Hbytes Hkept. unfold torch_save in Hw.
    destruct (find_entry (tag +:+ ".pt") kept) as [[sz|mt es]|] eqn:Hfind; [| done |].
    + injection Hw as <-. induction kept as [|[d n] l IH]; [done|].
      simpl in Hfind |- *. destruct (String.eqb d (tag +:+ ".pt")) eqn:Hd; simpl.
      * by rewrite Hd.
      * rewrite Hd. by apply IH.
    + injection Hw as <-. induction kept as [|[d n] l IH]; simpl.
      * by rewrite String.eqb_refl.
      * simpl in Hfind. destruct (String.eqb d (tag +:+ ".pt")); [done|by apply IH].
Qed.

Lemma save_ckpt_of_a_module_keeps_bounds_witness :
  subdirs [("latest"%string, File 12); ckpt "d" 4 40; ("step5.pt"%string, File 7)]
    = subdirs (foldl (fun d p => rmtree p d) with_latest ["a"; "b"; "c"]%string) /\
  count [("latest"%string, File 12); ckpt "d" 4 40; ("step5.pt"%string, File 7)] < 10 /\
  bytes [("latest"%string, File 12); ckpt "d" 4 40; ("step5.pt"%string, File 7)]
    <= MAX_SIZE 50 /\
  find_entry ("step5" +:+ ".pt")
    [("latest"%string, File 12); ckpt "d" 4 40; ("step5.pt"%string, File 7)]
    = Some (File 7).
Proof.
  apply (save_ckpt_of_a_module_keeps_bounds 5 7 with_latest _ "step5" 10 50
           ["a"; "b"; "c"]%string).
  - apply NoDup_ListNoDup. repeat constructor; simpl; intuition discriminate.
  - reflexivity.
Defined.

End CkptMore.

(** ** all_reduce and all_gather, continued *)

Section ReduceMore.
Import Torch Reduce Examples.

Lemma dict_for_app (f : value -> M nat value) pre rest ret n :
  dict_for f (pre ++ rest) ret n
  = match dict_for f pre ret n with
    | (Ok r, m) => dict_for f rest r m
    | (Raise e, m) => (Raise e, m)
    end.
Proof.
  revert ret n. induction pre as [|[k v] pre IH]; intros ret n; [done|].
  simpl. unfold mbind. destruct (f v n) as [[r|e] m]; [apply IH|done].
Qed.

(** The loop never makes more calls than the data has leaves. *)
Lemma dict_for_calls_le (f : value -> M nat value) items ret n :
  Forall (fun kv => forall m, (m <= (f kv.2 m).2 <= m + leaves kv.2)%nat) items ->
  (n <= (dict_for f items ret n).2 <= n + leaves (Dict items))%nat.
Proof.
  intros Hf. revert ret n. induction Hf as [|[k v] items Hv _ IH]; intros ret n.
  - simpl. lia.
  - cbn [dict_for]. unfold mbind. rewrite leaves_cons. simpl in Hv.
    specialize (Hv n). destruct (f v n) as [[r|e] m]; cbn [snd] in Hv |- *.
    + specialize (IH (dict_set k r ret) m). lia.
    + lia.
Qed.

Lemma all_reduce_calls_le g op v n :
  (n <= (all_reduce g op v n).2 <= n + leaves v)%nat.
Proof.
  destruct (valid_op op) eqn:Hop.
  - revert n. induction v as [x|t|items IH] using value_ind'; intros n.
    + simpl. rewrite Hop. simpl. destruct (Tensor1 x) as [t|e]; simpl; [|lia].
      unfold mbind, collective. destruct (item _); simpl; lia.
    + rewrite all_reduce_Tensor by done. simpl. lia.
    + rewrite all_reduce_Dict by done. unfold mbind.
      pose proof (dict_for_calls_le (all_reduce g op) items [] n IH) as Hle.
      destruct (dict_for (all_reduce g op) items [] n) as [[r|e] m]; simpl in *; lia.
  - destruct v; simpl; rewrite Hop; simpl; lia.
Qed.

Lemma all_gather_calls_le g v n :
  (n <= (all_gather g v n).2 <= n + leaves v)%nat.
Proof.
  revert n. induction v as [x|t|items IH] using value_ind'; intros n.
  - simpl. destruct (Tensor1 x) as [t|e]; simpl; lia.
  - simpl. lia.
  - simpl. unfold mbind.
    pose proof (dict_for_calls_le (all_gather g) items [] n IH) as Hle.
    destruct (dict_for (all_gather g) items [] n) as [[r|e] m]; simpl in *; lia.
Qed.

Lemma all_gather_returns g v n :
  data_with converts (fun _ => True) v ->
  exists r, all_gather g v n = (Ok r, (n + leaves v)%nat).
Proof.
  intros Hv. revert v Hv n.
  apply (traverse_returns (all_gather g) converts); try done.
  - intros x n Hx. eexists. by apply all_gather_Scalar, Tensor1_converts.
  - intros t n. by eexists.
Qed.

(** X5.  The collective calls follow the shape of the data.  When
    [all_reduce] or [all_gather] is given data whose numbers
    [torch.Tensor] accepts, it returns after exactly one collective call
    for each leaf, whatever the group, the [op] and the values: two
    processes whose data have the same shape make the same calls.  On
    any data at all, neither makes more calls than there are leaves. *)
Theorem one_collective_call_for_each_leaf g op v n :
  (valid_op op = true -> data_with converts (fun _ => True) v ->
   (exists r, all_reduce g op v n = (Ok r, (n + leaves v)%nat)) /\
   (exists r, all_gather g v n = (Ok r, (n + leaves v)%nat))) /\
  (n <= (all_reduce g op v n).2 <= n + leaves v)%nat /\
  (n <= (all_gather g v n).2 <= n + leaves v)%nat.
Proof.
  split; [|split].
  - intros Hop Hv. split; [by apply all_reduce_returns|by apply all_gather_returns].
  - apply all_reduce_calls_le.
  - apply all_gather_calls_le.
Qed.

Lemma one_collective_call_for_each_leaf_witness :
  (exists r, all_reduce (ranks 4 2) "sum" (Dict metrics) 7%nat = (Ok r, 9%nat)) /\
  (exists r, all_gather (ranks 4 2) (Dict metrics) 7%nat = (Ok r, 9%nat)).
Proof.
  destruct (one_collective_call_for_each_leaf (ranks 4 2) "sum" (Dict metrics) 7%nat)
    as [H _].
  apply H; [reflexivity|exact metrics_data].
Defined.

(** X6.  A number that [torch.Tensor] refuses stops the walk where it
    stands.  In a dict whose items before the key [k] are accepted,
    and whose value under [k] is a number that raises, [all_reduce] and
    [all_gather] raise the same exception after the collective calls of
    the items before [k]: the calls of the items after it are never
    made. *)
Theorem refused_number_stops_midway g op pre k x post e n :
  valid_op op = true ->
  data_with converts (fun _ => True) (Dict pre) ->
  Tensor1 x = Raise e ->
  all_reduce g op (Dict (pre ++ (k, Scalar x) :: post)) n
    = (Raise e, (n + leaves (Dict pre))%nat) /\
  all_gather g (Dict (pre ++ (k, Scalar x) :: post)) n
    = (Raise e, (n + leaves (Dict pre))%nat).
Proof.
  intros Hop Hpre Hx. pose proof Hpre as [Hnodup Hitems]%data_with_Dict. split.
  - rewrite all_reduce_Dict by done. unfold mbind. rewrite dict_for_app.
    destruct (dict_for_items (all_reduce g op) pre [] n) as (rs & Hloop & _).
    { done. }
    { rewrite Forall_forall in Hitems |- *. intros kv Hkv m.
      by apply all_reduce_returns, Hitems. }
    rewrite Hloop. cbn [dict_for]. unfold mbind. simpl. by rewrite Hop, Hx.
  - simpl. unfold mbind. rewrite dict_for_app.
    destruct (dict_for_items (all_gather g) pre [] n) as (rs & Hloop & _).
    { done. }
    { rewrite Forall_forall in Hitems |- *. intros kv Hkv m.
      by apply all_gather_returns, Hitems. }
    rewrite Hloop. cbn [dict_for]. unfold mbind. simpl. by rewrite Hx.
Qed.

Lemma refused_number_stops_midway_witness :
  all_reduce solo "mean" (Dict (metrics ++ [("tokens"%string, Scalar (PyInt (2 ^ 1024)));
                                            ("kl"%string, Scalar (PyInt 1))])) 0%nat
    = (Raise OverflowError, 2%nat) /\
  all_gather solo (Dict (metrics ++ [("tokens"%string, Scalar (PyInt (2 ^ 1024)));
                                     ("kl"%string, Scalar (PyInt 1))])) 0%nat
    = (Raise OverflowError, 2%nat).
Proof.
  apply (refused_number_stops_midway solo "mean" metrics "tokens" (PyInt (2 ^ 1024))
           [("kl"%string, Scalar (PyInt 1))] OverflowError 0%nat).
  - reflexivity.
  - exact metrics_data.
  - reflexivity.
Defined.

Lemma foldl_max_same x (l : list nat) :
  foldl f32_max x ((fun _ => x) <$> l) = x.
Proof.
  induction l as [|r l IH]; [done|]. simpl.
  replace (f32_max x x) with x by (unfold f32_max; by destruct (SFltb x x)).
  exact IH.
Qed.

(** X7.  The maximum over a group that agrees is what it agrees on: when
    every other rank hands to the call the elements this process holds,
    [all_reduce] with [op] max returns the tensor as it is, whatever the
    size of the group. *)
Theorem max_of_an_agreeing_group g t n :
  (forall r i x, (r < world_size g)%nat -> r ≠ get_rank g ->
                 elems t !! i = Some x -> peer g n r i = x) ->
  all_reduce g "max" (Tensor t) n = (Ok (Tensor t), S n).
Proof.
  intros Hagree. rewrite all_reduce_Tensor by done. do 2 f_equal.
  assert (Hred : forall u, elems u = elems t ->
            dist_all_reduce g MAX n u = u).
  { intros [d els] Hels. simpl in Hels. subst els. unfold dist_all_reduce.
    cbn [device_type elems]. f_equal.
    rewrite (imap_ext _ (fun _ x => x)); [apply imap_same|].
    intros i x Hx. unfold contributions.
    rewrite (list_fmap_ext _ (fun _ => x) (seq 0 (world_size g))).
    - destruct (world_size g) as [|k]; [done|].
      cbn [seq fmap list_fmap]. apply foldl_max_same.
    - intros j r Hr. apply lookup_seq in Hr as [-> Hlt]. simpl.
      destruct (Nat.eqb_spec j (get_rank g)); [done|]. by apply Hagree. }
  unfold reduce_buffer. change (String.eqb "max" "mean") with false.
  change (String.eqb "max" "max") with true. cbv iota.
  destruct t as [[] els]; cbn [device_type is_cpu]; by rewrite Hred.
Qed.

Lemma max_of_an_agreeing_group_witness :
  all_reduce (twins 3 1) "max"
      (Tensor {| device_type := cuda; elems := [f32 1; f32 2] |}) 0%nat
    = (Ok (Tensor {| device_type := cuda; elems := [f32 1; f32 2] |}), 1%nat).
Proof.
  apply (max_of_an_agreeing_group (twins 3 1)
           {| device_type := cuda; elems := [f32 1; f32 2] |} 0%nat).
  intros r [|[|i]] x Hr Hne Hx; simpl in Hx; inversion Hx; reflexivity.
Defined.

Lemma length_concat_blocks {A} (f : nat -> list A) len (l : list nat) :
  (forall r, length (f r) = len) ->
  length (concat (f <$> l)) = (length l * len)%nat.
Proof.
  intros Hlen. induction l as [|r l IH]; [done|].
  rewrite fmap_cons. cbn [concat]. rewrite length_app, Hlen, IH. simpl. lia.
Qed.

Lemma lookup_concat_blocks {A} (f : nat -> list A) len k start r i x :
  (forall r, length (f r) = len) ->
  (r < k)%nat -> f (start + r)%nat !! i = Some x ->
  concat (f <$> seq start k) !! (r * len + i)%nat = Some x.
Proof.
  intros Hlen. revert start r. induction k as [|k IH]; intros start r Hr Hx; [lia|].
  cbn [seq fmap list_fmap concat]. destruct r as [|r].
  - rewrite Nat.add_0_r in Hx. simpl. by apply lookup_app_l_Some.
  - rewrite lookup_app_r by (rewrite Hlen; lia). rewrite Hlen.
    replace (S r * len + i - len)%nat with (r * len + i)%nat by lia.
    apply IH; [lia|]. by replace (S start + r)%nat with (start + S r)%nat by lia.
Qed.

(** X8.  A tensor comes back where it lived and in the expected shape.
    [all_reduce] returns a tensor on the device of its input with as
    many elements; [all_gather] returns a tensor on the device of its
    input with [world_size] times as many elements, among which the
    input's own elements stand at the place of its rank. *)
Theorem tensors_keep_device_and_shape g op t n :
  valid_op op = true ->
  (exists r, all_reduce g op (Tensor t) n = (Ok (Tensor r), S n) /\
             device_type r = device_type t /\
             length (elems r) = length (elems t)) /\
  (exists r, all_gather g (Tensor t) n = (Ok (Tensor r), S n) /\
             device_type r = device_type t /\
             length (elems r) = (world_size g * length (elems t))%nat /\
             ((get_rank g < world_size g)%nat ->
              forall i x, elems t !! i = Some x ->
                elems r !! (get_rank g * length (elems t) + i)%nat = Some x)).
Proof.
  intros Hop. split.
  - exists (reduce_buffer g op n t). split; [by apply all_reduce_Tensor|].
    split; [|apply length_reduce_buffer].
    unfold reduce_buffer. by destruct t as [[] els], (String.eqb op "mean").
  - exists (gather_buffer g n t). split; [done|].
    set (block := fun r => imap (fun i x => if Nat.eqb r (get_rank g) then x
                                            else peer g n r i) (elems t)).
    assert (Hblocks : elems (gather_buffer g n t)
                      = concat (block <$> seq 0 (world_size g))).
    { unfold gather_buffer, dist_all_gather, cat.
      destruct t as [[] els]; cbn [device_type is_cpu to elems];
        by rewrite <- list_fmap_compose. }
    assert (Hlen : forall r, length (block r) = length (elems t)).
    { intros r. unfold block. apply length_imap. }
    split; [unfold gather_buffer; by destruct t as [[] els]|]. split.
    + rewrite Hblocks, (length_concat_blocks block (length (elems t))) by done.
      by rewrite length_seq.
    + intros Hrank i x Hx. rewrite Hblocks.
      apply (lookup_concat_blocks block (length (elems t))); [done|done|].
      unfold block. rewrite list_lookup_imap, Hx. simpl.
      by rewrite Nat.eqb_refl.
Qed.

Lemma tensors_keep_device_and_shape_witness :
  (exists r, all_reduce (ranks 4 2) "mean"
               (Tensor {| device_type := cpu; elems := [f32 1; f32 2] |}) 0%nat
             = (Ok (Tensor r), 1%nat) /\
             device_type r = cpu /\ length (elems r) = 2%nat) /\
  (exists r, all_gather (ranks 4 2)
               (Tensor {| device_type := cpu; elems := [f32 1; f32 2] |}) 0%nat
             = (Ok (Tensor r), 1%nat) /\
             device_type r = cpu /\ length (elems r) = 8%nat /\
             ((2 < 4)%nat ->
              forall i x, [f32 1; f32 2] !! i = Some x ->
                elems r !! (2 * 2 + i)%nat = Some x)).
Proof.
  apply (tensors_keep_device_and_shape (ranks 4 2) "mean"
           {| device_type := cpu; elems := [f32 1; f32 2] |} 0%nat).
  reflexivity.
Defined.

End ReduceMore.

(** ** setup_distributed and moving_average, continued *)

Section SetupFacts.



End SetupFacts.

Section EmaMore.
Import Zero Ema.
Context {F T : Type}.
Variable one_minus : F -> F.
Variable scale : F -> T -> T.
Variable add : T -> T -> T.

Local Abbreviation blend_all := (blend_all one_minus scale add).
Local Abbreviation moving_average := (moving_average one_minus scale add).
Local Abbreviation calls := (calls one_minus scale add).
Local Abbreviation state := (@state T).

Lemma div_succ_fires s acc :
  0 <= s -> 0 < acc -> (s + 1) mod acc = 0 -> (s + 1) / acc = s / acc + 1.
Proof.
  intros Hs Hacc Hmod.
  pose proof (Z.div_mod (s + 1) acc ltac:(lia)) as H1.
  pose proof (Z.div_mod s acc ltac:(lia)) as H2.
  pose proof (Z.mod_pos_bound s acc Hacc) as H3.
  rewrite Hmod in H1. nia.
Qed.

Lemma div_succ_idle s acc :
  0 <= s -> 0 < acc -> (s + 1) mod acc ≠ 0 -> (s + 1) / acc = s / acc.
Proof.
  intros Hs Hacc Hmod.
  pose proof (Z.div_mod (s + 1) acc ltac:(lia)) as H1.
  pose proof (Z.div_mod s acc ltac:(lia)) as H2.
  pose proof (Z.mod_pos_bound s acc Hacc) as H3.
  pose proof (Z.mod_pos_bound (s + 1) acc Hacc) as H4.
  nia.
Qed.

Lemma calls_count n model beta (st : state) :
  0 <= ema_steps (self st) -> 0 < accumulated_gradient (self st) ->
  exists st',
    calls n model beta st = (Ok tt, st') /\
    ema_steps (self st') = ema_steps (self st) + Z.of_nat n /\
    accumulated_gradient (self st') = accumulated_gradient (self st) /\
    stage (self st') = stage (self st) /\
    model_ema st'
      = Nat.iter (Z.to_nat ((ema_steps (self st) + Z.of_nat n) / accumulated_gradient (self st)
                            - ema_steps (self st) / accumulated_gradient (self st)))
                 (fun shadow => (blend_all (stage (self st)) beta model shadow).1)
                 (model_ema st).
Proof.
  revert st. induction n as [|n IH]; intros st Hs Hacc.
  - exists st. rewrite Z.add_0_r, Z.sub_diag. repeat split; done.
  - cbn [Ema.calls]. unfold mbind at 1. rewrite moving_average_unfold. cbv zeta.
    unfold pymod. destruct (Z.eqb_spec (accumulated_gradient (self st)) 0); [lia|].
    set (acc := accumulated_gradient (self st)) in *.
    set (s := ema_steps (self st)) in *.
    assert (Hmono : (s + 1) / acc <= (s + 1 + Z.of_nat n) / acc).
    { apply Z.div_le_mono; lia. }
    destruct (Z.eqb_spec ((s + 1) mod acc) 0) as [Hfire|Hidle].
    + match goal with |- context [calls n model beta ?st1] =>
        destruct (IH st1) as (st' & Hcalls & Hsteps & Hacc' & Hstage & Hshadow) end.
      { cbn [self]. rewrite ema_steps_bump. lia. }
      { done. }
      cbn [self model_ema] in Hsteps, Hacc', Hstage, Hshadow.
      rewrite ema_steps_bump in Hsteps, Hshadow.
      change (accumulated_gradient (bump (self st))) with acc in Hacc', Hshadow.
      change (stage (bump (self st))) with (stage (self st)) in Hstage, Hshadow.
      fold s in Hsteps, Hshadow.
      exists st'. split; [exact Hcalls|]. split; [lia|]. split; [done|]. split; [done|].
      rewrite Hshadow.
      rewrite <- (Nat.iter_succ_r _ (fun shadow => (blend_all (stage (self st)) beta model shadow).1)).
      f_equal.
      rewrite (div_succ_fires s acc) in * by lia.
      replace (s + Z.of_nat (S n)) with (s + 1 + Z.of_nat n) by lia. lia.
    + match goal with |- context [calls n model beta ?st1] =>
        destruct (IH st1) as (st' & Hcalls & Hsteps & Hacc' & Hstage & Hshadow) end.
      { cbn [self]. rewrite ema_steps_bump. lia. }
      { done. }
      cbn [self model_ema] in Hsteps, Hacc', Hstage, Hshadow.
      rewrite ema_steps_bump in Hsteps, Hshadow.
      change (accumulated_gradient (bump (self st))) with acc in Hacc', Hshadow.
      change (stage (bump (self st))) with (stage (self st)) in Hstage, Hshadow.
      fold s in Hsteps, Hshadow.
      exists st'. split; [exact Hcalls|]. split; [lia|]. split; [done|]. split; [done|].
      rewrite Hshadow. f_equal.
      rewrite (div_succ_idle s acc) in * by lia.
      replace (s + Z.of_nat (S n)) with (s + 1 + Z.of_nat n) by lia. lia.
Qed.

(** X10.  The blend runs once in every [accumulated_gradient] calls.  From a
    fresh counter, any number [n] of calls with the same live model and
    [beta] succeed, and leave the shadow model as
    [n // accumulated_gradient] passes of the loop over the parameters
    make it. *)
Theorem calls_blend_once_per_step n model beta (st : state) :
  ema_steps (self st) = 0 -> 1 <= accumulated_gradient (self st) ->
  exists st',
    calls n model beta st = (Ok tt, st') /\
    ema_steps (self st') = Z.of_nat n /\
    model_ema st'
      = Nat.iter (Z.to_nat (Z.of_nat n / accumulated_gradient (self st)))
                 (fun shadow => (blend_all (stage (self st)) beta model shadow).1)
                 (model_ema st).
Proof.
  intros Hfresh Hacc.
  destruct (calls_count n model beta st) as (st' & Hcalls & Hsteps & _ & _ & Hshadow);
    [lia|lia|].
  exists st'. split; [done|]. split; [lia|].
  rewrite Hshadow, Hfresh. rewrite Z.add_0_l, Z.div_0_l by lia. by rewrite Z.sub_0_r.
Qed.

(** X11.  A batch smaller than one micro batch per process breaks the
    average.  [setup_distributed] then sets [accumulated_gradient] to 0
    without complaint, and every later call of [moving_average] raises
    ZeroDivisionError: it counts the call and leaves the shadow model
    alone. *)
Theorem small_batch_breaks_moving_average ws s model beta (st : state) :
  0 < micro_train_batch_size s -> 0 < ws ->
  0 <= train_batch_size s < micro_train_batch_size s * ws ->
  setup_distributed ws s = Ok (self st) ->
  moving_average model beta st
    = (Raise ZeroDivisionError,
       {| self := bump (self st); model_ema := model_ema st; scopes := scopes st |}) /\
  ema_steps (bump (self st)) = ema_steps (self st) + 1.
Proof.
  intros Hm Hw Hsmall Hsetup. split; [|apply ema_steps_bump].
  apply moving_average_zero.
  unfold setup_distributed, floordiv in Hsetup.
  destruct (Z.eqb_spec (micro_train_batch_size s) 0); [lia|].
  destruct (Z.eqb_spec ws 0); [lia|].
  injection Hsetup as <-. simpl.
  rewrite Z.div_div by lia. apply Z.div_small. lia.
Qed.

(** X12.  What a call can and cannot change.  Whatever its outcome, a call
    adds one to the count of calls and changes nothing else of [self];
    the shadow model keeps its length and the flags of its parameters;
    scopes are only added, at most one for each pair of parameters, and
    none unless the stage is 3. *)
Theorem moving_average_footprint model beta (st : state) :
  let st' := (moving_average model beta st).2 in
  self st' = bump (self st) /\
  requires_grad <$> model_ema st' = requires_grad <$> model_ema st /\
  materialized <$> model_ema st' = materialized <$> model_ema st /\
  exists new,
    scopes st' = scopes st ++ new /\
    (length new <= length model)%nat /\ (length new <= length (model_ema st))%nat /\
    Forall (fun e => is_gather e = true) new /\
    (stage (self st) ≠ 3 -> new = []).
Proof.
  assert (Hpass : forall stg (ps es : list (parameter T)),
    requires_grad <$> (blend_all stg beta ps es).1 = requires_grad <$> es /\
    materialized <$> (blend_all stg beta ps es).1 = materialized <$> es /\
    (length (blend_all stg beta ps es).2 <= length ps)%nat /\
    (length (blend_all stg beta ps es).2 <= length es)%nat /\
    Forall (fun e => is_gather e = true) (blend_all stg beta ps es).2 /\
    (stg ≠ 3 -> (blend_all stg beta ps es).2 = [])).
  { intros stg ps. induction ps as [|p ps IH]; intros [|e es];
      try (cbn [Ema.blend_all]; repeat split; simpl; try done; lia).
    cbn [Ema.blend_all]. destruct (IH es) as (Hg & Hm & Hl1 & Hl2 & Hall & Hnone).
    destruct (blend_all stg beta ps es) as [rest events].
    cbn [fst snd] in *.
    destruct (requires_grad p); [destruct (Z.eqb_spec stg 3)|]; cbn [negb fst snd];
      rewrite !fmap_cons, ?Hg, ?Hm; cbn [length];
      repeat split; try done; try lia; try (by constructor). }
  cbv zeta. rewrite moving_average_unfold. cbv zeta.
  destruct (pymod _ _) as [r|e]; [destruct (r =? 0)|]; cbn [snd self model_ema scopes].
  - destruct (Hpass (stage (self st)) model (model_ema st))
      as (Hg & Hm & Hl1 & Hl2 & Hall & Hnone).
    split; [done|]. split; [done|]. split; [done|]. by eexists.
  - split; [done|]. split; [done|]. split; [done|].
    exists []. rewrite app_nil_r. repeat split; try done; simpl; lia.
  - split; [done|]. split; [done|]. split; [done|].
    exists []. rewrite app_nil_r. repeat split; try done; simpl; lia.
Qed.

End EmaMore.

Section EmaMoreExamples.
Import Torch Zero Ema Examples.

Lemma calls_blend_once_per_step_witness :
  exists st',
    calls one_minus mul_scalar add_tensors 9 live_model beta_0_992 ema_start = (Ok tt, st') /\
    ema_steps (self st') = 9 /\
    model_ema st'
      = Nat.iter 2 (fun shadow =>
                      (blend_all one_minus mul_scalar add_tensors 2 beta_0_992 live_model
                         shadow).1)
                 (model_ema ema_start).
Proof.
  apply (calls_blend_once_per_step one_minus mul_scalar add_tensors 9 live_model
           beta_0_992 ema_start).
  - reflexivity.
  - simpl. lia.
Defined.

Lemma small_batch_breaks_moving_average_witness :
  moving_average one_minus mul_scalar add_tensors live_model beta_0_992 ema_starved
    = (Raise ZeroDivisionError,
       {| self := bump starved_strategy; model_ema := model_ema ema_starved;
          scopes := [] |}) /\
  ema_steps (bump starved_strategy) = 0 + 1.
Proof.
  apply (small_batch_breaks_moving_average one_minus mul_scalar add_tensors 8
           starved_strategy live_model beta_0_992 ema_starved).
  - simpl. lia.
  - lia.
  - simpl. lia.
  - reflexivity.
Defined.

Lemma moving_average_footprint_witness :
  exists new,
    scopes (moving_average one_minus mul_scalar add_tensors live_model beta_0_992
              ema_start).2 = [] ++ new /\
    new = [].
Proof.
  destruct (moving_average_footprint one_minus mul_scalar add_tensors live_model
              beta_0_992 ema_start) as (_ & _ & _ & new & Hnew & _ & _ & _ & Hnone).
  exists new. split; [exact Hnew|]. apply Hnone. simpl. lia.
Defined.

End EmaMoreExamples.

(** ** prepare, continued *)

Section PrepareMore.
Import Prepare Entries.

Variable get_train_ds_config : train_args -> ds_config.
Variable get_eval_ds_config : eval_args -> ds_config.

Local Abbreviation prepare := (prepare get_train_ds_config get_eval_ds_config).
Local Abbreviation prepare_loop := (prepare_loop get_train_ds_config get_eval_ds_config).
Local Abbreviation ds_init_train_model := (ds_init_train_model get_train_ds_config).
Local Abbreviation ds_init_eval_model := (ds_init_eval_model get_eval_ds_config).

(** The stage that an evaluation model is configured with. *)
Local Abbreviation eval_stage self model :=
  (if getattr_is_ema model then 0 else if stage self =? 3 then 3 else 0).

Lemma ds_init_eval_model_details model self calls :
  exists c a,
    ds_init_eval_model model (self, calls)
      = (Ok (wrap model (Engine (length calls))), (self, calls ++ [c])) /\
    init_model c = inner model /\
    init_optimizer c = None /\ init_lr_scheduler c = None /\
    init_config c
      = <["train_batch_size"%string := CInt (train_batch_size self)]>
          (<["train_micro_batch_size_per_gpu"%string := CInt (micro_train_batch_size self)]>
             (get_eval_ds_config a)) /\
    e_offload a = getattr_is_ema model /\
    e_stage a = eval_stage self model /\
    (e_enable_hybrid_engine a = true <->
     is_Actor model = true /\ 1 < inference_tp_size self /\ stage self = 3 /\
     getattr_is_ema model = false) /\
    init_config c !! "train_batch_size"%string = Some (CInt (train_batch_size self)) /\
    init_config c !! "train_micro_batch_size_per_gpu"%string
      = Some (CInt (micro_train_batch_size self)).
Proof.
  unfold Prepare.ds_init_eval_model, mbind, get, initialize, mret. cbn [fst snd].
  assert (Hkeys : forall cfg : ds_config,
    <["train_batch_size"%string := CInt (train_batch_size self)]>
      (<["train_micro_batch_size_per_gpu"%string := CInt (micro_train_batch_size self)]> cfg)
      !! "train_batch_size"%string = Some (CInt (train_batch_size self)) /\
    <["train_batch_size"%string := CInt (train_batch_size self)]>
      (<["train_micro_batch_size_per_gpu"%string := CInt (micro_train_batch_size self)]> cfg)
      !! "train_micro_batch_size_per_gpu"%string
      = Some (CInt (micro_train_batch_size self))).
  { intros cfg. split; [apply lookup_insert_eq|].
    rewrite lookup_insert_ne by done. apply lookup_insert_eq. }
  destruct (getattr_is_ema model) eqn:Hema;
    [|destruct (Z.eqb_spec (stage self) 3) as [Hs|Hs]];
    eexists _, _; (split; [reflexivity|]);
    cbn [init_model init_optimizer init_lr_scheduler init_config];
    (split; [done|]); (split; [done|]); (split; [done|]); (split; [reflexivity|]);
    cbn [e_offload e_stage e_enable_hybrid_engine];
    (split; [done|]); (split; [done|]); (split; [|apply Hkeys]).
  - rewrite andb_false_r. split; [done|]. by intros (_ & _ & _ & ?).
  - rewrite Hs. change (3 =? 3) with true. rewrite andb_true_r, andb_true_iff.
    rewrite Z.gtb_lt. split; [intros [? ?]; repeat split; done + lia|].
    intros (? & ? & _ & _). split; [done|lia].
  - rewrite andb_false_r. split; [done|]. by intros (_ & _ & ? & _).
Qed.

(** X13.  An evaluation model gets no optimizer and no scheduler, keeps no
    partitioning unless the stage is 3, and none at all when it is an
    EMA model, which alone is offloaded; the hybrid engine is asked for
    only for an Actor that is not an EMA model, at stage 3, with
    tensor parallelism.  Whatever the configuration builder returns,
    the two batch sizes in the configuration are those of [self], never
    doubled. *)
Theorem eval_model_configuration model self calls :
  exists c a,
    ds_init_eval_model model (self, calls)
      = (Ok (wrap model (Engine (length calls))), (self, calls ++ [c])) /\
    init_model c = inner model /\
    init_optimizer c = None /\ init_lr_scheduler c = None /\
    init_config c
      = <["train_batch_size"%string := CInt (train_batch_size self)]>
          (<["train_micro_batch_size_per_gpu"%string := CInt (micro_train_batch_size self)]>
             (get_eval_ds_config a)) /\
    e_offload a = getattr_is_ema model /\
    e_stage a = eval_stage self model /\
    (e_enable_hybrid_engine a = true <->
     is_Actor model = true /\ 1 < inference_tp_size self /\ stage self = 3 /\
     getattr_is_ema model = false) /\
    init_config c !! "train_batch_size"%string = Some (CInt (train_batch_size self)) /\
    init_config c !! "train_micro_batch_size_per_gpu"%string
      = Some (CInt (micro_train_batch_size self)).
Proof. apply ds_init_eval_model_details. Qed.

Lemma prepare_loop_in_order args ret self calls :
  Forall well_formed args ->
  exists more,
    prepare_loop args ret (self, calls)
      = (Ok (ret ++ imap (fun i arg => prepared arg (length calls + i)) args),
         (self, calls ++ more)) /\
    init_model <$> more = (fun arg => inner (entry_model arg)) <$> args.
Proof.
  intros Hargs. revert ret calls.
  induction Hargs as [|arg args Harg _ IH]; intros ret calls.
  - exists []. by rewrite !app_nil_r.
  - assert (Hstep : exists c,
      prepare_loop (arg :: args) ret (self, calls)
        = prepare_loop args (ret ++ [prepared arg (length calls)]) (self, calls ++ [c]) /\
      init_model c = inner (entry_model arg)).
    { assert (Heval : forall model, exists c,
        (r <~ ds_init_eval_model model ;; prepare_loop args (ret ++ [r]))%py (self, calls)
          = prepare_loop args (ret ++ [wrap model (Engine (length calls))])
              (self, calls ++ [c]) /\
        init_model c = inner model).
      { intros model.
        destruct (ds_init_eval_model_details model self calls) as (c & a & Hc & Hm & _).
        exists c. split; [|done]. unfold mbind at 1. by rewrite Hc. }
      destruct arg as [b m|name b|items|items|n|n|n]; cbn [Prepare.prepare_loop];
        try apply Heval.
      destruct items as [|model [|optim [|scheduler [|]]]]; try done.
      destruct (ds_init_train_model_call get_train_ds_config model optim scheduler
                  self calls) as (c & Hc & Hm & _).
      exists c. split; [|exact Hm]. unfold mbind at 1. rewrite Hc. reflexivity. }
    destruct Hstep as (c & Hstep & Hc).
    destruct (IH (ret ++ [prepared arg (length calls)]) (calls ++ [c])) as (more & Hrec & Hmore).
    exists (c :: more). split.
    + rewrite Hstep, Hrec. rewrite <- !app_assoc. cbn [imap app].
      rewrite Nat.add_0_r. do 4 f_equal.
      apply imap_ext. intros i x _. cbn [compose]. rewrite length_app. simpl.
      f_equal. lia.
    + rewrite !fmap_cons. by rewrite Hc, Hmore.
Qed.

(** X14.  With well-formed entries [prepare] succeeds and keeps their order:
    it calls [deepspeed.initialize] once for each entry, in order, on
    the entry's model (the network of an Actor), and the [i]-th thing it
    returns is the [i]-th entry around the engine of the [i]-th call; a
    list, unless there is exactly one entry. *)
Theorem prepare_keeps_the_order args is_rlhf self calls :
  Forall well_formed args ->
  exists more,
    let ret := imap (fun i arg => prepared arg (length calls + i)) args in
    prepare args is_rlhf (self, calls)
      = (Ok (match ret with [r] => r | _ => List ret end),
         (set_is_rlhf is_rlhf self, calls ++ more)) /\
    length ret = length args /\
    init_model <$> more = (fun arg => inner (entry_model arg)) <$> args.
Proof.
  intros Hargs.
  destruct (prepare_loop_in_order args [] (set_is_rlhf is_rlhf self) calls Hargs)
    as (more & Hloop & Hmore).
  exists more. cbv zeta. split; [|split; [apply length_imap|done]].
  unfold Prepare.prepare, mbind at 1, modify. cbn [fst snd].
  unfold mbind at 1. by rewrite Hloop.
Qed.

End PrepareMore.

Section PrepareMoreExamples.
Import Prepare Entries Examples.

Lemma prepare_keeps_the_order_witness :
  exists more,
    prepare no_config no_config
        [Tuple [Actor false (Obj "llama" false); Obj "adam" false; Obj "cosine" false];
         Actor true (Obj "llama_ema" false)]
        true (ppo_strategy, [])
      = (Ok (List [Tuple [Actor false (Engine 0); EngineOptimizer 0; EngineScheduler 0];
                   Actor true (Engine 1)]),
         (set_is_rlhf true ppo_strategy, [] ++ more)) /\
    length [prepared (Tuple [Actor false (Obj "llama" false); Obj "adam" false;
                             Obj "cosine" false]) 0;
            prepared (Actor true (Obj "llama_ema" false)) 1] = 2%nat /\
    init_model <$> more = [Obj "llama" false; Obj "llama_ema" false].
Proof.
  apply (prepare_keeps_the_order no_config no_config
           [Tuple [Actor false (Obj "llama" false); Obj "adam" false; Obj "cosine" false];
            Actor true (Obj "llama_ema" false)] true ppo_strategy []).
  repeat constructor.
Defined.

End PrepareMoreExamples.

(** ** save_model, load_model and save_hf_format *)

Section SaveModelMore.
Import Zero SaveModel LoadModel HfFormat.
Context {T : Type}.

Lemma update_all_lookup_notin (d : gmap string T) l k :
  k ∉ l.*1 -> update_all d l !! k = d !! k.
Proof.
  unfold update_all. revert d. induction l as [|[k0 v0] l IH]; intros d Hk; [done|].
  rewrite fmap_cons in Hk. apply not_elem_of_cons in Hk as [Hne Hk]. simpl in Hne.
  simpl. rewrite IH by done. by rewrite lookup_insert_ne.
Qed.

Lemma update_all_lookup_in (d : gmap string T) l k v :
  NoDup l.*1 -> (k, v) ∈ l -> update_all d l !! k = Some v.
Proof.
  unfold update_all. revert d. induction l as [|[k0 v0] l IH]; intros d Hnd Hin.
  - by apply elem_of_nil in Hin.
  - rewrite fmap_cons in Hnd. apply NoDup_cons in Hnd as [Hnotin Hnd]. simpl in Hnotin.
    simpl. apply elem_of_cons in Hin as [Heq|Hin].
    + inversion Heq; subst.
      pose proof (update_all_lookup_notin (<[k0:=v0]> d) l k0 Hnotin) as H.
      unfold update_all in H. rewrite H. apply lookup_insert_eq.
    + by apply IH.
Qed.

Lemma update_all_is_Some (d : gmap string T) l k :
  is_Some (update_all d l !! k) <-> is_Some (d !! k) \/ k ∈ l.*1.
Proof.
  unfold update_all. revert d. induction l as [|[k0 v0] l IH]; intros d.
  - simpl. rewrite elem_of_nil. tauto.
  - rewrite fmap_cons, elem_of_cons. cbn [foldl fst snd]. rewrite IH.
    destruct (decide (k0 = k)) as [->|Hne].
    + rewrite lookup_insert_eq. split; [intros _; right; by left|intros _; left; by eexists].
    + rewrite lookup_insert_ne by done. split; [tauto|].
      intros [?|[?|?]]; [tauto|congruence|tauto].
Qed.

Lemma names_of_data (ps : list (string * parameter T)) :
  ((fun kv : string * parameter T => (kv.1, data kv.2)) <$> ps).*1 = ps.*1.
Proof. rewrite <- list_fmap_compose. by apply list_fmap_ext. Qed.

Lemma state_dict_holds_parameters_and_buffers_aux (model : nn T) k :
  (is_Some (state_dict model !! k) <->
   k ∈ (named_parameters model).*1 \/ k ∈ (named_buffers model).*1) /\
  (NoDup (named_buffers model).*1 ->
   forall b, (k, b) ∈ named_buffers model -> state_dict model !! k = Some b) /\
  (NoDup (named_parameters model).*1 -> k ∉ (named_buffers model).*1 ->
   forall p, (k, p) ∈ named_parameters model -> state_dict model !! k = Some (data p)).
Proof.
  unfold state_dict. split; [|split].
  - rewrite !update_all_is_Some, lookup_empty, names_of_data. split.
    + intros [[[? ?]|?]|?]; [done|by left|by right].
    + intros [?|?]; [left; by right|by right].
  - intros Hnd b Hb. by apply update_all_lookup_in.
  - intros Hnd Hk p Hp. rewrite update_all_lookup_notin by done.
    apply update_all_lookup_in.
    + by rewrite names_of_data.
    + apply list_elem_of_fmap. by exists (k, p).
Qed.



Lemma save_model_saves self rank (model : nn T) path :
  filter (fun e => is_save e = true) (save_model self rank model path)
    = (if rank =? 0 then [TorchSave path (state_dict (model_to_save model))] else []) /\
  (stage self ≠ 3 ->
   filter (fun e => is_gather e = true) (save_model self rank model path) = []).
Proof.
  destruct (Z.eqb_spec (stage self) 3) as [Hs|Hs].
  - rewrite save_model_stage_3 by done. split; [|done].
    rewrite filter_app, filter_save_scopes.
    destruct (rank =? 0); [|done].
    by rewrite filter_cons_True, filter_nil by done.
  - assert (Hsave : save_model self rank model path
                    = if rank =? 0
                      then [TorchSave path (state_dict (model_to_save model))] else []).
    { unfold save_model, model_to_save. apply Z.eqb_neq in Hs. rewrite Hs. simpl.
      by destruct (rank =? 0), (_unwrap_model model). }
    rewrite Hsave. destruct (rank =? 0).
    + split; [by rewrite filter_cons_True, filter_nil by done|].
      intros _. by rewrite filter_cons_False, filter_nil by done.
    + by rewrite !filter_nil.
Qed.


Lemma String_append_assoc (a b c : string) : (a +:+ b) +:+ c = a +:+ (b +:+ c).
Proof.
  induction a as [|x a IH]; [done|].
  change (String x ((a +:+ b) +:+ c) = String x (a +:+ b +:+ c)). by rewrite IH.
Qed.

Lemma load_parameter_same (p : parameter T) : load_parameter (Some (data p)) p = p.
Proof. by destruct p. Qed.

(** Loading, under a prefix, a state dict that holds under every full
    name what the model holds leaves the model as it is. *)
Lemma load_into_same prefix (sd : gmap string T) (model : nn T) :
  (forall k p, (k, p) ∈ named_parameters model -> sd !! (prefix +:+ k) = Some (data p)) ->
  (forall k b, (k, b) ∈ named_buffers model -> sd !! (prefix +:+ k) = Some b) ->
  load_into prefix sd model = model.
Proof.
  revert prefix.
  assert (Hwrap : forall layer (m : nn T) prefix,
    (forall prefix,
       (forall k p, (k, p) ∈ named_parameters m -> sd !! (prefix +:+ k) = Some (data p)) ->
       (forall k b, (k, b) ∈ named_buffers m -> sd !! (prefix +:+ k) = Some b) ->
       load_into prefix sd m = m) ->
    (forall k p, (k, p) ∈ prefixed layer (named_parameters m) ->
                 sd !! (prefix +:+ k) = Some (data p)) ->
    (forall k b, (k, b) ∈ prefixed layer (named_buffers m) ->
                 sd !! (prefix +:+ k) = Some b) ->
    load_into (prefix +:+ layer) sd m = m).
  { intros layer m prefix IH Hps Hbs. apply IH.
    - intros k p Hk. rewrite String_append_assoc. apply Hps.
      unfold prefixed. apply list_elem_of_fmap. by exists (k, p).
    - intros k b Hk. rewrite String_append_assoc. apply Hbs.
      unfold prefixed. apply list_elem_of_fmap. by exists (k, b). }
  induction model as [m IH|m IH|m IH|ps bs]; intros prefix Hps Hbs;
    cbn [load_into]; try (f_equal; by apply Hwrap).
  simpl in Hps, Hbs. f_equal.
  - rewrite <- (list_fmap_id ps) at 2. apply list_fmap_ext. intros i [k p] Hi. simpl.
    rewrite (Hps k p) by (by eapply list_elem_of_lookup_2).
    by rewrite load_parameter_same.
  - rewrite <- (list_fmap_id bs) at 2. apply list_fmap_ext. intros i [k b] Hi. simpl.
    by rewrite (Hbs k b) by (by eapply list_elem_of_lookup_2).
Qed.

Lemma with_unwrapped_same (f : nn T -> outcome T) (model : nn T) :
  f (_unwrap_model model) = Loaded (_unwrap_model model) ->
  with_unwrapped f model = Loaded model.
Proof.
  induction model as [m IH|m _|m _|ps bs]; simpl; intros Hf.
  - by rewrite IH.
  - by rewrite Hf.
  - done.
  - done.
Qed.

Lemma written_save self (model : nn T) path (d : gmap string (gmap string T)) :
  written (save_model self 0 model path) d !! path = Some (state_dict (model_to_save model)).
Proof.
  assert (Hlast : forall (scopes : list (event T)) sd (d : gmap string (gmap string T)),
            Forall (fun e => is_gather e = true) scopes ->
            written (scopes ++ [TorchSave path sd]) d !! path = Some sd).
  { intros scopes sd d' Hall. unfold written. rewrite foldl_app. simpl.
    apply lookup_insert_eq. }
  destruct (Z.eqb_spec (stage self) 3) as [Hs|Hs].
  - rewrite save_model_stage_3 by done. apply Hlast.
    apply Forall_fmap, Forall_true. done.
  - unfold save_model, model_to_save. apply Z.eqb_neq in Hs. rewrite Hs. simpl.
    destruct (_unwrap_model model); apply (Hlast []); constructor.
Qed.


(** X18.  [save_hf_format] on every rank goes through [save_model] with the
    weights file under [output_dir], so every rank enters the same
    gathered scopes; rank 0 alone then writes the configuration and the
    vocabulary, after the weights and in that order; a process of
    another rank writes nothing. *)
Theorem save_hf_format_writes_on_rank_0 self rank (model : nn T) output_dir :
  let events := save_hf_format self rank model output_dir in
  let weights := save_model self rank model (path_join output_dir WEIGHTS_NAME) in
  (rank = 0 ->
   events = (Weights <$> weights) ++
            [ToJsonFile (path_join output_dir CONFIG_NAME); SaveVocabulary output_dir] /\
   filter (fun e => is_save e = true) weights
     = [TorchSave (path_join output_dir WEIGHTS_NAME) (state_dict (model_to_save model))]) /\
  (rank ≠ 0 ->
   events = Weights <$> weights /\
   filter (fun e => is_save e = true) weights = []) /\
  (forall rank',
     filter (fun e => is_gather e = true)
       (save_model self rank' model (path_join output_dir WEIGHTS_NAME))
     = filter (fun e => is_gather e = true) weights).
Proof.
  cbv zeta. unfold save_hf_format. split; [|split].
  - intros ->. split; [done|].
    by destruct (save_model_saves self 0 model
                   (path_join output_dir WEIGHTS_NAME)) as [-> _].
  - intros Hrank. apply Z.eqb_neq in Hrank. rewrite Hrank, app_nil_r. split; [done|].
    destruct (save_model_saves self rank model
                (path_join output_dir WEIGHTS_NAME)) as [-> _].
    by rewrite Hrank.
  - intros rank'. destruct (Z.eqb_spec (stage self) 3) as [Hs|Hs].
    + rewrite !save_model_stage_3 by done. rewrite !filter_app, !filter_gather_scopes.
      destruct (rank =? 0), (rank' =? 0);
        by rewrite ?filter_cons_False, ?filter_nil by done.
    + destruct (save_model_saves self rank model
                  (path_join output_dir WEIGHTS_NAME)) as [_ ->]; [|done].
      by destruct (save_model_saves self rank' model
                     (path_join output_dir WEIGHTS_NAME)) as [_ ->].
Qed.

End SaveModelMore.

Section SaveModelMoreExamples.
Import Zero SaveModel LoadModel HfFormat.




Lemma save_hf_format_writes_on_rank_0_witness :
  save_hf_format Examples.zero3_strategy 1 Examples.tiny_actor "ckpt/hf"
    = Weights <$> save_model Examples.zero3_strategy 1 Examples.tiny_actor
                    "ckpt/hf/pytorch_model.bin" /\
  filter (fun e => is_save e = true)
    (save_model Examples.zero3_strategy 1 Examples.tiny_actor "ckpt/hf/pytorch_model.bin")
    = [].
Proof.
  destruct (save_hf_format_writes_on_rank_0 Examples.zero3_strategy 1 Examples.tiny_actor
              "ckpt/hf") as (_ & H & _).
  apply H. lia.
Defined.

End SaveModelMoreExamples.
